(** * RoleRadar: location keys, identity resolution and connector traversals

    A shallow embedding of the Python sources
      - [utils/location.py]       (location normaliser and display formatter),
      - [connectors/amazon.py]    (offset-paginated JSON search API),
      - [connectors/dassault.py]  (sitemap crawl followed by detail pages),
      - [connectors/mathworks.py] (single RSS feed),
    together with the properties stated about them.

    Conventions.
      - A Python [str] is a Rocq [string].  Text outside ASCII is carried as
        its UTF-8 bytes; the case and white-space tables below are the ASCII
        rows of Python's tables, and bytes from 128 up are caseless and are
        not white space.  On ASCII text ([Py.isascii]) [strip], [upper],
        [lower], [title] and the white-space pattern are Python's; what is
        proved of code that maps case or trims is stated for such text.
      - [Optional[str]] is [option string]; [x or ""] is [or_empty].
      - Code that performs requests runs in a small monad that threads the
        log of requests made so far and may raise; unbounded [while] loops
        take a fuel argument and report [OutOfFuel] when it is used up. *)

From Stdlib Require Import ZArith NArith Lia Bool Ascii String List.
From stdpp Require Import base decidable list strings gmap.
From Stdlib Require Import DecimalString.

Set Warnings "-register-all".


Local Open Scope string_scope.
Local Open Scope list_scope.

(** ** Python string primitives *)

Module Py.

Definition code (c : ascii) : N := N_of_ascii c.

Definition between (lo hi : N) (c : ascii) : bool :=
  ((lo <=? code c) && (code c <=? hi))%N.

(** [str.isspace] on one character: TAB..CR, FS..US and SPACE. *)
Definition is_space (c : ascii) : bool :=
  between 9 13 c || between 28 32 c.

Definition is_lower (c : ascii) : bool := between 97 122 c.
Definition is_upper (c : ascii) : bool := between 65 90 c.
Definition is_cased (c : ascii) : bool := is_lower c || is_upper c.

Definition upper_char (c : ascii) : ascii :=
  if is_lower c then ascii_of_N (code c - 32) else c.

Definition lower_char (c : ascii) : ascii :=
  if is_upper c then ascii_of_N (code c + 32) else c.

Fixpoint smap (f : ascii -> ascii) (s : string) : string :=
  match s with
  | EmptyString => EmptyString
  | String c r => String (f c) (smap f r)
  end.

(** [s.upper()] and [s.lower()] *)
Definition upper (s : string) : string := smap upper_char s.
Definition lower (s : string) : string := smap lower_char s.

(** [bool(s)] for a string: non-empty. *)
Definition truthy (s : string) : bool :=
  match s with EmptyString => false | String _ _ => true end.

(** [x or ""] for an optional string *)
Definition or_empty (o : option string) : string :=
  match o with Some s => s | None => "" end.

(** [s.lstrip()], [s.rstrip()], [s.strip()] *)
Fixpoint lstrip (s : string) : string :=
  match s with
  | EmptyString => EmptyString
  | String c r => if is_space c then lstrip r else s
  end.

Fixpoint rstrip (s : string) : string :=
  match s with
  | EmptyString => EmptyString
  | String c r =>
      match rstrip r with
      | EmptyString => if is_space c then EmptyString else String c EmptyString
      | r' => String c r'
      end
  end.

Definition strip (s : string) : string := rstrip (lstrip s).

(** [s.title()]: a cased character is upper-cased when the character
    before it is not cased, and lower-cased when it is. *)
Fixpoint title_from (prev_cased : bool) (s : string) : string :=
  match s with
  | EmptyString => EmptyString
  | String c r =>
      String (if prev_cased then lower_char c else upper_char c)
             (title_from (is_cased c) r)
  end.

Definition title (s : string) : string := title_from false s.

(** [re.sub(r"\s+", " ", s)]: every maximal run of white space becomes one
    space. *)
Fixpoint collapse_from (in_run : bool) (s : string) : string :=
  match s with
  | EmptyString => EmptyString
  | String c r =>
      if is_space c
      then (if in_run then collapse_from true r
            else String " " (collapse_from true r))
      else String c (collapse_from false r)
  end.

Definition collapse_ws (s : string) : string := collapse_from false s.

(** [s.replace(a, b)] for one-character [a] and [b] *)
Definition replace_char (a b : ascii) (s : string) : string :=
  smap (fun c => if Ascii.eqb c a then b else c) s.

(** [s.split(sep, maxsplit)] for a one-character separator *)
Fixpoint split_max (sep : ascii) (maxsplit : nat) (s : string) : list string :=
  match s with
  | EmptyString => [EmptyString]
  | String c r =>
      match maxsplit with
      | O => [s]
      | S m =>
          if Ascii.eqb c sep then EmptyString :: split_max sep m r
          else match split_max sep maxsplit r with
               | h :: t => String c h :: t
               | [] => [String c EmptyString]
               end
      end
  end.

(** [s.split(sep)]: no limit on the number of splits *)
Definition split (sep : ascii) (s : string) : list string :=
  split_max sep (String.length s) s.

(** [s.startswith(p)], [s.endswith(p)], [p in s] *)
Fixpoint startswith (p s : string) : bool :=
  match p, s with
  | EmptyString, _ => true
  | String a p', String b s' => Ascii.eqb a b && startswith p' s'
  | String _ _, EmptyString => false
  end.

Fixpoint contains (p s : string) : bool :=
  startswith p s ||
  match s with
  | EmptyString => false
  | String _ r => contains p r
  end.

Fixpoint endswith (p s : string) : bool :=
  String.eqb p s ||
  match s with
  | EmptyString => false
  | String _ r => endswith p r
  end.

(** [s[:n]] *)
Fixpoint take (n : nat) (s : string) : string :=
  match n, s with
  | S m, String c r => String c (take m r)
  | _, _ => EmptyString
  end.

(** [c in s] for a character *)
Fixpoint has_char (c : ascii) (s : string) : bool :=
  match s with
  | EmptyString => false
  | String d r => Ascii.eqb d c || has_char c r
  end.

(** [s.count(c)] for a character *)
Fixpoint count_char (c : ascii) (s : string) : nat :=
  match s with
  | EmptyString => O
  | String d r => (if Ascii.eqb d c then 1 else 0) + count_char c r
  end.

(** [s.isascii()]: every character is below U+0080. *)
Fixpoint isascii (s : string) : bool :=
  match s with
  | EmptyString => true
  | String c r => (code c <? 128)%N && isascii r
  end.

(** [isascii] of an optional string; nothing is ASCII text too. *)
Definition isascii_opt (o : option string) : bool :=
  match o with
  | Some s => isascii s
  | None => true
  end.

End Py.

(** ** utils/location.py *)

Definition hyphen : ascii := "-"%char.
Definition underscore : ascii := "_"%char.
Definition space : ascii := " "%char.

Definition _clean_city (city : string) : string :=
  let city := Py.strip city in
  if negb (Py.truthy city) then ""
  else
    let city := Py.collapse_ws city in
    let city := Py.title city in
    let city := Py.replace_char space underscore city in
    city.

Definition normalize_location (country state city : option string)
  : option string :=
  let c := Py.upper (Py.strip (Py.or_empty country)) in
  let s := Py.upper (Py.strip (Py.or_empty state)) in
  let ci := _clean_city (Py.or_empty city) in
  if negb (Py.truthy c || Py.truthy s || Py.truthy ci) then None
  else Some (c +:+ "-" +:+ s +:+ "-" +:+ ci).

(** UTF-8 encoding of one code point (up to U+FFFF, which covers the
    literal below). *)
Definition utf8_encode (cp : N) : list ascii :=
  (if cp <? 128 then [ascii_of_N cp]
   else if cp <? 2048 then
     [ascii_of_N (192 + cp / 64); ascii_of_N (128 + cp mod 64)]
   else
     [ascii_of_N (224 + cp / 4096);
      ascii_of_N (128 + (cp / 64) mod 64);
      ascii_of_N (128 + cp mod 64)])%N.

Definition utf8 (cps : list N) : string :=
  string_of_list_ascii (List.concat (List.map utf8_encode cps)).

(** The literal returned for a missing key: the three code points
    U+00E2 U+20AC U+201D. *)
Definition placeholder : string := utf8 [226; 8364; 8221]%N.

Definition display_location (key : option string) : string :=
  match key with
  | None => placeholder
  | Some key =>
      if negb (Py.truthy key) then placeholder
      else
        match Py.split_max hyphen 2 key with
        | [country; state; city] =>
            let city_disp := Py.replace_char underscore space city in
            if Py.truthy state
            then city_disp +:+ ", " +:+ state +:+ ", " +:+ country
            else city_disp +:+ ", " +:+ country
        | _ => key
        end
  end.

(** ** SHA-256 (FIPS 180-4), as computed by [hashlib.sha256] *)

Module Sha256.
Local Open Scope N_scope.

Definition mask32 : N := 0xffffffff.
Definition w32 (x : N) : N := N.land x mask32.
Definition add32 (a b : N) : N := w32 (a + b).
Definition rotr (n x : N) : N :=
  N.lor (N.shiftr x n) (w32 (N.shiftl x (32 - n))).
Definition shr (n x : N) : N := N.shiftr x n.
Definition not32 (x : N) : N := N.lxor x mask32.

Definition Ch (x y z : N) : N := N.lxor (N.land x y) (N.land (not32 x) z).
Definition Maj (x y z : N) : N :=
  N.lxor (N.lxor (N.land x y) (N.land x z)) (N.land y z).
Definition Sigma0 (x : N) : N := N.lxor (N.lxor (rotr 2 x) (rotr 13 x)) (rotr 22 x).
Definition Sigma1 (x : N) : N := N.lxor (N.lxor (rotr 6 x) (rotr 11 x)) (rotr 25 x).
Definition sigma0 (x : N) : N := N.lxor (N.lxor (rotr 7 x) (rotr 18 x)) (shr 3 x).
Definition sigma1 (x : N) : N := N.lxor (N.lxor (rotr 17 x) (rotr 19 x)) (shr 10 x).

(** The constants of FIPS 180-4, section 4.2.2 and 5.3.3: the first 32 bits
    of the fractional parts of the cube roots (for [K]) and of the square
    roots (for [H0]) of the first primes. *)
Definition is_prime (p : nat) : bool :=
  List.forallb (fun d => negb (Nat.eqb (Nat.modulo p d) 0)) (List.seq 2 (p - 2)).

Definition primes : list N :=
  List.map N.of_nat (List.filter is_prime (List.seq 2 310)).

(** The integer [k]-th root of [n], found bit by bit from bit 47 down. *)
Definition iroot (k n : N) : N :=
  List.fold_left
    (fun r i => let r' := r + N.shiftl 1 (N.of_nat i) in
                if r' ^ k <=? n then r' else r)
    (List.rev (List.seq 0 48)) 0.

Definition frac_root (k : N) (p : N) : N :=
  w32 (iroot k (N.shiftl p (32 * k))).

Definition K : list N :=
  Eval vm_compute in List.map (frac_root 3) (List.firstn 64 primes).

(** The eight working variables. *)
Record regs := Regs { ra : N; rb : N; rc : N; rd : N; re : N; rf : N; rg : N; rh : N }.

Definition H0 : regs :=
  Eval vm_compute in
  match List.map (frac_root 2) (List.firstn 8 primes) with
  | [a; b; c; d; e; f; g; h] => Regs a b c d e f g h
  | _ => Regs 0 0 0 0 0 0 0 0
  end.

(** Big-endian bytes of the bit length, [n] bytes wide. *)
Fixpoint be_bytes (n : nat) (x : N) : list N :=
  match n with
  | O => []
  | S m => be_bytes m (x / 256) ++ [x mod 256]
  end.

(** Padding: 0x80, zeros up to 56 modulo 64, then the 64-bit bit length. *)
Definition pad (msg : list N) : list N :=
  let len := N.of_nat (List.length msg) in
  let zeros := (119 - len mod 64) mod 64 in
  msg ++ [0x80] ++ List.repeat 0 (N.to_nat zeros) ++ be_bytes 8 (8 * len).

Fixpoint words (bs : list N) : list N :=
  match bs with
  | a :: b :: c :: d :: r =>
      (a * 16777216 + b * 65536 + c * 256 + d) :: words r
  | _ => []
  end.

(** Message schedule, newest word first: [sched] holds W[t-1], W[t-2], ... *)
Fixpoint extend (n : nat) (sched : list N) : list N :=
  match n with
  | O => sched
  | S m =>
      let w := add32 (add32 (sigma1 (List.nth 1 sched 0)) (List.nth 6 sched 0))
                     (add32 (sigma0 (List.nth 14 sched 0)) (List.nth 15 sched 0)) in
      extend m (w :: sched)
  end.

Definition schedule (block : list N) : list N :=
  List.rev (extend 48 (List.rev block)).

Definition round (r : regs) (kw : N * N) : regs :=
  let t1 := add32 (add32 (add32 (rh r) (Sigma1 (re r)))
                         (add32 (Ch (re r) (rf r) (rg r)) (fst kw))) (snd kw) in
  let t2 := add32 (Sigma0 (ra r)) (Maj (ra r) (rb r) (rc r)) in
  Regs (add32 t1 t2) (ra r) (rb r) (rc r) (add32 (rd r) t1) (re r) (rf r) (rg r).

Definition compress (h : regs) (block : list N) : regs :=
  let r := List.fold_left round (List.combine K (schedule block)) h in
  Regs (add32 (ra h) (ra r)) (add32 (rb h) (rb r)) (add32 (rc h) (rc r))
       (add32 (rd h) (rd r)) (add32 (re h) (re r)) (add32 (rf h) (rf r))
       (add32 (rg h) (rg r)) (add32 (rh h) (rh r)).

Fixpoint blocks (fuel : nat) (h : regs) (ws : list N) : regs :=
  match fuel, ws with
  | S f, _ :: _ => blocks f (compress h (List.firstn 16 ws)) (List.skipn 16 ws)
  | _, _ => h
  end.

Definition digest (msg : list N) : regs :=
  let ws := words (pad msg) in
  blocks (List.length ws) H0 ws.

Definition hexdigit (x : N) : ascii :=
  let d := x mod 16 in
  if d <? 10 then ascii_of_N (48 + d) else ascii_of_N (87 + d).

Definition hex8 (w : N) (tail : string) : string :=
  String (hexdigit (w / 0x10000000)) (String (hexdigit (w / 0x1000000))
  (String (hexdigit (w / 0x100000)) (String (hexdigit (w / 0x10000))
  (String (hexdigit (w / 0x1000)) (String (hexdigit (w / 0x100))
  (String (hexdigit (w / 0x10)) (String (hexdigit w) tail))))))).

Definition hex_of_regs (r : regs) : string :=
  hex8 (ra r) (hex8 (rb r) (hex8 (rc r) (hex8 (rd r)
  (hex8 (re r) (hex8 (rf r) (hex8 (rg r) (hex8 (rh r) EmptyString))))))).

(** [hashlib.sha256(s.encode()).hexdigest()] *)
Definition hexdigest (s : string) : string :=
  hex_of_regs (digest (List.map N_of_ascii (list_ascii_of_string s))).

End Sha256.

(** [hashlib.sha256(url.encode()).hexdigest()[:16]] *)
Definition url_hash16 (url : string) : string :=
  Py.take 16 (Sha256.hexdigest url).

(** ** Python values that come out of the JSON decoder *)

(** Numbers are integers here: the payload fields read by the connector
    (ids, hit counts) are integral. *)
Inductive json : Type :=
  | JNull
  | JBool (b : bool)
  | JInt (z : Z)
  | JStr (s : string)
  | JList (l : list json)
  | JDict (d : list (string * json)).

Inductive exn : Type :=
  | ConnectionError   (* requests.get / session.get found no usable reply *)
  | HTTPError         (* raise_for_status on a 4xx or 5xx reply *)
  | JSONDecodeError
  | ParseError        (* xml.etree.ElementTree.fromstring *)
  | ValueError        (* urllib.parse.urlparse *)
  | AttributeError
  | TypeError.

(** Outcome of running a piece of code: a value, an exception on its way
    to the caller, or fuel used up inside a [while] loop. *)
Inductive result (A : Type) : Type :=
  | Ok (a : A)
  | Raise (e : exn)
  | OutOfFuel.
Arguments Ok {A} a.
Arguments Raise {A} e.
Arguments OutOfFuel {A}.

(** The code came to an end, with a value or with an exception. *)
Definition finished {A : Type} (r : result A) : Prop := r <> OutOfFuel.

Definition rbind {A B : Type} (m : result A) (k : A -> result B) : result B :=
  match m with
  | Ok a => k a
  | Raise e => Raise e
  | OutOfFuel => OutOfFuel
  end.

Notation "x <~ m ;; k" := (rbind m (fun x => k))
  (at level 200, m at level 99, right associativity).

Module PyVal.

(** [bool(v)] *)
Definition truthy (v : json) : bool :=
  match v with
  | JNull => false
  | JBool b => b
  | JInt z => negb (z =? 0)%Z
  | JStr s => Py.truthy s
  | JList l => match l with [] => false | _ :: _ => true end
  | JDict d => match d with [] => false | _ :: _ => true end
  end.

(** [a or b] *)
Definition or (a b : json) : json := if truthy a then a else b.

Fixpoint lookup (k : string) (d : list (string * json)) : option json :=
  match d with
  | [] => None
  | (k', v) :: r => if String.eqb k' k then Some v else lookup k r
  end.

(** [v.get(k, default)]: only a dict has [get]. *)
Definition get_default (v : json) (k : string) (default : json) : result json :=
  match v with
  | JDict d => Ok (match lookup k d with Some x => x | None => default end)
  | _ => Raise AttributeError
  end.

(** [v.get(k)] *)
Definition get (v : json) (k : string) : result json := get_default v k JNull.

(** [v.strip()]: only a string has [strip]. *)
Definition strip (v : json) : result string :=
  match v with
  | JStr s => Ok (Py.strip s)
  | _ => Raise AttributeError
  end.

(** [prefix + v] for a string [prefix] *)
Definition str_add (prefix : string) (v : json) : result string :=
  match v with
  | JStr s => Ok (prefix +:+ s)
  | _ => Raise TypeError
  end.

(** The values a [for] statement draws from [v], as far as the loop body
    gets to see them: a list gives its items; a non-empty string or dict
    gives strings. *)
Definition iter (v : json) : result (list json) :=
  match v with
  | JList l => Ok l
  | JStr s => Ok (List.map (fun c => JStr (String c EmptyString)) (list_ascii_of_string s))
  | JDict d => Ok (List.map (fun kv => JStr (fst kv)) d)
  | _ => Raise TypeError
  end.

(** [len(v)] *)
Definition len (v : json) : result Z :=
  match v with
  | JList l => Ok (Z.of_nat (List.length l))
  | JStr s => Ok (Z.of_nat (String.length s))
  | JDict d => Ok (Z.of_nat (List.length d))
  | _ => Raise TypeError
  end.

(** [isinstance(v, int)], with the integer it stands for; [bool] is a
    subclass of [int]. *)
Definition as_int (v : json) : option Z :=
  match v with
  | JInt z => Some z
  | JBool b => Some (if b then 1 else 0)%Z
  | _ => None
  end.

Definition quote1 : ascii := ascii_of_N 39.
Definition quote2 : ascii := ascii_of_N 34.
Definition backslash : ascii := ascii_of_N 92.

Definition hex2 (n : N) : string :=
  String (Sha256.hexdigit (n / 16)) (String (Sha256.hexdigit n) EmptyString).

Definition repr_char (q c : ascii) : string :=
  let n := N_of_ascii c in
  if Ascii.eqb c q || Ascii.eqb c backslash then String backslash (String c EmptyString)
  else if (n =? 9)%N then String backslash "t"
  else if (n =? 10)%N then String backslash "n"
  else if (n =? 13)%N then String backslash "r"
  else if (n <? 32)%N || (n =? 127)%N then String backslash (String "x" (hex2 n))
  else String c EmptyString.

Fixpoint repr_chars (q : ascii) (s : string) : string :=
  match s with
  | EmptyString => EmptyString
  | String c r => repr_char q c +:+ repr_chars q r
  end.

(** [repr(s)] for a string *)
Definition repr_str (s : string) : string :=
  let q := if Py.has_char quote1 s && negb (Py.has_char quote2 s)
           then quote2 else quote1 in
  String q (repr_chars q s +:+ String q EmptyString).

Definition str_int (z : Z) : string := NilZero.string_of_int (Z.to_int z).

Fixpoint join (sep : string) (l : list string) : string :=
  match l with
  | [] => EmptyString
  | [x] => x
  | x :: r => x +:+ sep +:+ join sep r
  end.

(** [repr(v)] *)
Fixpoint repr (v : json) : string :=
  match v with
  | JNull => "None"
  | JBool b => if b then "True" else "False"
  | JInt z => str_int z
  | JStr s => repr_str s
  | JList l => "[" +:+ join ", " (List.map repr l) +:+ "]"
  | JDict d =>
      "{" +:+ join ", " (List.map (fun kv => repr_str (fst kv) +:+ ": " +:+ repr (snd kv)) d)
          +:+ "}"
  end.

(** [str(v)] *)
Definition str (v : json) : string :=
  match v with
  | JStr s => s
  | _ => repr v
  end.

End PyVal.

(** ** The outside world and the request monad *)

Inductive param : Type :=
  | PStr (s : string)
  | PInt (z : Z)
  | PList (l : list string).

Record request : Type := Request {
  req_url : string;
  req_params : list (string * param)
}.

Inductive http_reply : Type :=
  | Reply (status : Z) (body : string)
  | NoReply.

Record response : Type := Response { status_code : Z; text : string }.

Record xml_element : Type := Element { el_tag : string; el_text : option string }.

(** What the connectors ask of a parsed HTML page. *)
Record html_doc : Type := HtmlDoc {
  h1_text : option string;       (* soup.find("h1"), then get_text(strip=True) *)
  title_text : option string;    (* soup.find("title"), then get_text(strip=True) *)
  page_text : string             (* soup.get_text("\n", strip=True) *)
}.

Record parsed_url : Type := ParsedUrl { scheme : string; netloc : string; path : string }.

(** A feed entry: named fields with string values. *)
Definition entry : Type := list (string * string).

(** The collaborators outside the program: the network, which may answer
    according to everything requested before, and the parsing libraries. *)
Record world : Type := World {
  send : list request -> request -> http_reply;
  json_loads : string -> option json;             (* None: JSONDecodeError *)
  feedparser_parse : string -> list entry;
  xml_fromstring : string -> option (list xml_element);  (* root.iter(); None: ParseError *)
  html_parse : string -> html_doc;
  urlparse : string -> option parsed_url;          (* None: ValueError *)
  JOB_PATH_RE_match : string -> bool;
  LOCATION_RE_search : string -> option string;    (* group 1 *)
  REFID_RE_search : string -> option string;       (* group 1 *)
  NUMERIC_ID_RE_search : string -> option string   (* group 1 *)
}.

(** Code that talks to the network: the log of requests made so far goes
    in, and comes out extended. *)
Definition M (A : Type) : Type := list request -> result A * list request.

Definition ret {A : Type} (a : A) : M A := fun log => (Ok a, log).

Definition bind {A B : Type} (m : M A) (k : A -> M B) : M B :=
  fun log =>
    match m log with
    | (Ok a, log') => k a log'
    | (Raise e, log') => (Raise e, log')
    | (OutOfFuel, log') => (OutOfFuel, log')
    end.

Notation "x <- m ;; k" := (bind m (fun x => k))
  (at level 200, m at level 99, right associativity).

Definition lift {A : Type} (r : result A) : M A := fun log => (r, log).

(** [try: m  except Exception: ...]: [None] when [m] raised. *)
Definition try_except {A : Type} (m : M A) : M (option A) :=
  fun log =>
    match m log with
    | (Ok a, log') => (Ok (Some a), log')
    | (Raise _, log') => (Ok None, log')
    | (OutOfFuel, log') => (OutOfFuel, log')
    end.

Definition out_of_fuel {A : Type} : M A := fun log => (OutOfFuel, log).

(** How an iteration of a loop ends: with [break], or ready for the next. *)
Inductive flow (A : Type) : Type :=
  | Break (a : A)
  | Continue (a : A).
Arguments Break {A} a.
Arguments Continue {A} a.

Definition flow_state {A : Type} (f : flow A) : A :=
  match f with Break a => a | Continue a => a end.

Section WithWorld.

Variable W : world.

(** [requests.get(url, params=..., ...)] and [session.get(url, ...)] *)
Definition requests_get (rq : request) : M response :=
  fun log =>
    match send W log rq with
    | Reply st body => (Ok (Response st body), log ++ [rq])
    | NoReply => (Raise ConnectionError, log ++ [rq])
    end.

(** [r.raise_for_status()] *)
Definition raise_for_status (r : response) : result unit :=
  if ((400 <=? status_code r) && (status_code r <? 600))%Z
  then Raise HTTPError else Ok tt.

(** [r.json()] *)
Definition response_json (r : response) : result json :=
  match json_loads W (text r) with
  | Some v => Ok v
  | None => Raise JSONDecodeError
  end.

(** ** One record for the three [Job] dataclasses; [description] exists in
    the sitemap connector only and is never filled in. *)
Record Job : Type := mkJob {
  company : string;
  job_id : string;
  title : string;
  url : string;
  location : option string;
  description : option string
}.

(** A Python [dict] with string keys: insertion-ordered; assigning to a key
    that is present replaces the value in place. *)
Fixpoint dict_set {V : Type} (k : string) (v : V) (d : list (string * V))
  : list (string * V) :=
  match d with
  | [] => [(k, v)]
  | (k', v') :: r =>
      if String.eqb k' k then (k, v) :: r else (k', v') :: dict_set k v r
  end.

Definition dict_values {V : Type} (d : list (string * V)) : list V :=
  List.map snd d.

Definition dict_len {V : Type} (d : list (string * V)) : Z :=
  Z.of_nat (List.length d).

(** ** connectors/amazon.py *)

Definition BASE : string := "https://www.amazon.jobs".
Definition SEARCH_JSON : string := BASE +:+ "/search.json".

Definition facets : list string :=
  ["normalized_country_code"; "normalized_state_name"; "normalized_city_name";
   "business_category"; "category"; "job_function_id"].

Definition _request (params : list (string * param)) : M json :=
  r <- requests_get (Request SEARCH_JSON params) ;;
  _ <- lift (raise_for_status r) ;;
  lift (response_json r).

(** [(v or "").strip()] as [normalize_location] applies it to an argument
    that came out of a JSON payload. *)
Definition or_empty_strip (v : json) : result string :=
  PyVal.strip (PyVal.or v (JStr "")).

(** [normalize_location] called on values taken from a payload: the three
    [strip] calls run in the order country, state, city. *)
Definition normalize_location_json (country state city : json) : result (option string) :=
  c <~ or_empty_strip country ;;
  s <~ or_empty_strip state ;;
  ci <~ or_empty_strip city ;;
  Ok (normalize_location (Some c) (Some s) (Some ci)).

Definition _extract_amazon_location (j : json) : result (option string) :=
  locs <~ PyVal.get j "locations" ;;
  let fallback :=
    country <~ PyVal.get j "country_code" ;;
    state <~ PyVal.get j "state" ;;
    city <~ PyVal.get j "city" ;;
    normalize_location_json country state city in
  match locs with
  | JList (first :: _) =>
      let first :=
        match first with
        | JStr s => match json_loads W s with Some v => v | None => JNull end
        | _ => first
        end in
      match first with
      | JDict _ =>
          c1 <~ PyVal.get first "normalizedCityName" ;;
          c2 <~ PyVal.get first "city" ;;
          s1 <~ PyVal.get first "region" ;;
          s2 <~ PyVal.get first "normalizedStateName" ;;
          k1 <~ PyVal.get first "countryIso2a" ;;
          k2 <~ PyVal.get first "normalizedCountryCode" ;;
          normalize_location_json (PyVal.or k1 k2) (PyVal.or s1 s2) (PyVal.or c1 c2)
      | _ => fallback
      end
  | _ => fallback
  end.

(** [str(j.get("id") or j.get("job_id") or sha256(url)[:16])] *)
Definition amazon_stable (id job_id : json) (url : string) : string :=
  PyVal.str (PyVal.or id (PyVal.or job_id (JStr (url_hash16 url)))).

(** The body of [for j in jobs] up to the construction of the [Job];
    [None] stands for [continue]. *)
Definition amazon_job (j : json) : result (option Job) :=
  t <~ PyVal.get j "title" ;;
  title <~ PyVal.strip (PyVal.or t (JStr "")) ;;
  p <~ PyVal.get j "job_path" ;;
  let job_path := PyVal.or p (JStr "") in
  if negb (Py.truthy title) || negb (PyVal.truthy job_path) then Ok None
  else
    url <~ PyVal.str_add BASE job_path ;;
    id <~ PyVal.get j "id" ;;
    jid <~ PyVal.get j "job_id" ;;
    let stable := amazon_stable id jid url in
    let job_id := "Amazon:" +:+ stable in
    location <~ _extract_amazon_location j ;;
    Ok (Some (mkJob "Amazon" job_id title url location None)).

(** The whole body: [all_jobs[job_id] = Job(...)]. *)
Definition amazon_item (j : json) (all_jobs : list (string * Job))
  : result (list (string * Job)) :=
  job <~ amazon_job j ;;
  match job with
  | Some job => Ok (dict_set (job_id job) job all_jobs)
  | None => Ok all_jobs
  end.

Fixpoint amazon_items (jobs : list json) (all_jobs : list (string * Job))
  : result (list (string * Job)) :=
  match jobs with
  | [] => Ok all_jobs
  | j :: rest =>
      all_jobs' <~ amazon_item j all_jobs ;;
      amazon_items rest all_jobs'
  end.

Record amazon_state : Type := AmazonState {
  all_jobs : list (string * Job);
  offset : Z;
  pages_fetched : Z;
  consecutive_no_new : Z
}.

Definition amazon_params (base_query normalized_country_code sort : string)
    (result_limit : Z) (offset : Z) : list (string * param) :=
  [("base_query", PStr base_query);
   ("offset", PInt offset);
   ("result_limit", PInt result_limit);
   ("sort", PStr sort);
   ("normalized_country_code[]", PStr normalized_country_code);
   ("facets[]", PList facets)].

(** One iteration of [while True], from the decoded page on. *)
Definition amazon_page (data : json) (st : amazon_state) : result (flow amazon_state) :=
  jobs <~ PyVal.get_default data "jobs" (JList []) ;;
  if negb (PyVal.truthy jobs) then Ok (Break st)
  else
    let before_count := dict_len (all_jobs st) in
    items <~ PyVal.iter jobs ;;
    all_jobs' <~ amazon_items items (all_jobs st) ;;
    let pages_fetched' := (pages_fetched st + 1)%Z in
    let consecutive_no_new' :=
      if (dict_len all_jobs' =? before_count)%Z
      then (consecutive_no_new st + 1)%Z else 0%Z in
    if (3 <=? consecutive_no_new')%Z
    then Ok (Break (AmazonState all_jobs' (offset st) pages_fetched' consecutive_no_new'))
    else
      n <~ PyVal.len jobs ;;
      let offset' := (offset st + n)%Z in
      hits <~ PyVal.get data "hits" ;;
      let st' := AmazonState all_jobs' offset' pages_fetched' consecutive_no_new' in
      match PyVal.as_int hits with
      | Some h => if (h <=? offset')%Z then Ok (Break st') else Ok (Continue st')
      | None => Ok (Continue st')
      end.

Section Amazon.

Variables (base_query normalized_country_code sort : string).
Variable result_limit : Z.
Variable max_pages : option Z.

Definition max_pages_reached (st : amazon_state) : bool :=
  match max_pages with
  | Some m => (m <=? pages_fetched st)%Z
  | None => false
  end.

Fixpoint amazon_loop (fuel : nat) (st : amazon_state) : M amazon_state :=
  match fuel with
  | O => out_of_fuel
  | S fuel' =>
      if max_pages_reached st then ret st
      else
        data <- _request (amazon_params base_query normalized_country_code sort
                                        result_limit (offset st)) ;;
        next <- lift (amazon_page data st) ;;
        match next with
        | Break st' => ret st'
        | Continue st' => amazon_loop fuel' st'
        end
  end.

Definition amazon_init : amazon_state := AmazonState [] 0 0 0.

Definition scrape_amazon (fuel : nat) : M (list Job) :=
  st <- amazon_loop fuel amazon_init ;;
  ret (dict_values (all_jobs st)).

End Amazon.

(** ** connectors/dassault.py *)

Definition COMPANY : string := "Dassault Systemes".
Definition SITEMAP_INDEX : string := "https://www.3ds.com/sitemap/sitemap.xml".

Definition _get (url : string) : M string :=
  r <- requests_get (Request url []) ;;
  _ <- lift (raise_for_status r) ;;
  ret (text r).

Definition _is_job_url (url : string) : bool :=
  match urlparse W url with
  | None => false
  | Some p =>
      if negb (Py.startswith "http" (scheme p)) then false
      else
        let host := Py.lower (netloc p) in
        if negb (Py.endswith "3ds.com" host) then false
        else JOB_PATH_RE_match W (path p)
  end.

Definition _tag_name (tag : string) : string :=
  if Py.has_char "}"%char tag then List.last (Py.split "}"%char tag) tag else tag.

Definition loc_of_element (el : xml_element) : option string :=
  if String.eqb (_tag_name (el_tag el)) "loc" then
    match el_text el with
    | Some t => if Py.truthy t then Some (Py.strip t) else None
    | None => None
    end
  else None.

Fixpoint filter_locs (els : list xml_element) : list string :=
  match els with
  | [] => []
  | el :: r =>
      match loc_of_element el with
      | Some l => l :: filter_locs r
      | None => filter_locs r
      end
  end.

Definition _iter_sitemap_locs (xml_text : string) : result (list string) :=
  match xml_fromstring W xml_text with
  | None => Raise ParseError
  | Some els => Ok (filter_locs els)
  end.

Record crawl_state : Type := CrawlState {
  to_visit : list string;
  visited : gset string;
  job_urls : list string;
  seen_jobs : gset string
}.

Definition is_sitemap_loc (loc : string) : bool :=
  Py.endswith ".xml" loc && Py.contains "/sitemap/" loc.

(** The body of [for loc in _iter_sitemap_locs(xml_text)] for one [loc]. *)
Definition crawl_loc (st : crawl_state) (loc : string) : crawl_state :=
  if is_sitemap_loc loc then
    if bool_decide (loc ∈ visited st) then st
    else CrawlState (to_visit st ++ [loc]) (visited st) (job_urls st) (seen_jobs st)
  else if _is_job_url loc then
    if bool_decide (loc ∈ seen_jobs st) then st
    else CrawlState (to_visit st) (visited st) (job_urls st ++ [loc])
                    ({[ loc ]} ∪ seen_jobs st)
  else st.

Definition cap_allows (max_sitemaps : option Z) (st : crawl_state) : bool :=
  match max_sitemaps with
  | None => true
  | Some m => (Z.of_nat (size (visited st)) <? m)%Z
  end.

Fixpoint crawl_loop (max_sitemaps : option Z) (fuel : nat) (st : crawl_state)
  : M crawl_state :=
  match fuel with
  | O => out_of_fuel
  | S fuel' =>
      match to_visit st with
      | [] => ret st
      | sm_url :: rest =>
          if negb (cap_allows max_sitemaps st) then ret st
          else
            let st := CrawlState rest (visited st) (job_urls st) (seen_jobs st) in
            if bool_decide (sm_url ∈ visited st) then crawl_loop max_sitemaps fuel' st
            else
              let st := CrawlState (to_visit st) ({[ sm_url ]} ∪ visited st)
                                   (job_urls st) (seen_jobs st) in
              fetched <- try_except (_get sm_url) ;;
              match fetched with
              | None => crawl_loop max_sitemaps fuel' st
              | Some xml_text =>
                  locs <- lift (_iter_sitemap_locs xml_text) ;;
                  crawl_loop max_sitemaps fuel' (List.fold_left crawl_loc locs st)
              end
      end
  end.

Definition crawl_init : crawl_state := CrawlState [SITEMAP_INDEX] ∅ [] ∅.

Definition _collect_job_urls_from_sitemaps (max_sitemaps : option Z) (fuel : nat)
  : M (list string) :=
  st <- crawl_loop max_sitemaps fuel crawl_init ;;
  ret (job_urls st).

Definition US_names : list string :=
  ["united states"; "us"; "usa"; "united states of america"].

Definition mem_string (s : string) (l : list string) : bool :=
  List.existsb (String.eqb s) l.

(** [[p.strip() for p in loc_raw.split(",") if p.strip()]] *)
Fixpoint stripped_parts (ps : list string) : list string :=
  match ps with
  | [] => []
  | p :: r =>
      if Py.truthy (Py.strip p) then Py.strip p :: stripped_parts r
      else stripped_parts r
  end.

(** [parts[i] if len(parts) >= i + 1 else ""] *)
Definition part_or_empty (i : nat) (parts : list string) : string :=
  if (i + 1 <=? List.length parts)%nat then List.nth i parts "" else "".

Definition _normalize_ds_location (loc_raw : string) : option string :=
  if negb (Py.truthy loc_raw) then None
  else
    let parts := stripped_parts (Py.split ","%char loc_raw) in
    match parts with
    | [] => None
    | country_raw :: _ =>
        let country_l := Py.lower country_raw in
        if mem_string country_l US_names then
          normalize_location (Some "US") (Some (part_or_empty 1 parts))
                             (Some (part_or_empty 2 parts))
        else
          let country := country_raw in
          if (3 <=? List.length parts)%nat then
            normalize_location (Some country) (Some (List.nth 1 parts ""))
                               (Some (List.nth 2 parts ""))
          else
            normalize_location (Some country) (Some "") (Some (part_or_empty 1 parts))
    end.

(** [a or b] where [a] is an optional string and [b] a string *)
Definition opt_or (a : option string) (b : string) : string :=
  match a with
  | Some s => if Py.truthy s then s else b
  | None => b
  end.

(** [ref_id or url_id or sha256(url)[:16]] *)
Definition dassault_stable (ref_id url_id : option string) (url : string) : string :=
  opt_or ref_id (opt_or url_id (url_hash16 url)).

Definition _parse_job_detail (html : string) (url : string) : result (option Job) :=
  let soup := html_parse W html in
  let title := match h1_text soup with Some t => t | None => "" end in
  let title :=
    if negb (Py.truthy title)
    then match title_text soup with Some t => t | None => "" end
    else title in
  let title := Py.strip title in
  if negb (Py.truthy title) then Ok None
  else
    let text := page_text soup in
    let ref_id := option_map Py.strip (REFID_RE_search W text) in
    let loc_raw := option_map Py.strip (LOCATION_RE_search W text) in
    let location_key := _normalize_ds_location (Py.or_empty loc_raw) in
    match urlparse W url with
    | None => Raise ValueError
    | Some p =>
        let url_id := NUMERIC_ID_RE_search W (path p) in
        let stable_id := dassault_stable ref_id url_id url in
        let job_id := COMPANY +:+ ":" +:+ stable_id in
        Ok (Some (mkJob COMPANY job_id title url location_key None))
    end.

(** [l[:n]] for an optional bound; a negative bound counts from the end. *)
Definition slice_to {A : Type} (n : option Z) (l : list A) : list A :=
  match n with
  | None => l
  | Some n =>
      if (0 <=? n)%Z then List.firstn (Z.to_nat n) l
      else List.firstn (Z.to_nat (Z.of_nat (List.length l) + n)) l
  end.

Fixpoint dassault_details (urls : list string) (jobs : list (string * Job))
  : M (list (string * Job)) :=
  match urls with
  | [] => ret jobs
  | url :: rest =>
      fetched <- try_except (_get url) ;;
      match fetched with
      | None => dassault_details rest jobs
      | Some html =>
          job <- lift (_parse_job_detail html url) ;;
          match job with
          | Some job => dassault_details rest (dict_set (job_id job) job jobs)
          | None => dassault_details rest jobs
          end
      end
  end.

Definition scrape_dassault (max_jobs max_sitemaps : option Z) (fuel : nat)
  : M (list Job) :=
  job_urls <- _collect_job_urls_from_sitemaps max_sitemaps fuel ;;
  let urls_to_fetch := slice_to max_jobs job_urls in
  jobs <- dassault_details urls_to_fetch [] ;;
  ret (dict_values jobs).

(** ** connectors/mathworks.py *)

Definition RSS_URL : string :=
  "https://www.mathworks.com/company/jobs/opportunities/rss.xml".

Fixpoint entry_get (e : entry) (k : string) : option string :=
  match e with
  | [] => None
  | (k', v) :: r => if String.eqb k' k then Some v else entry_get r k
  end.

Definition extract_location_from_entry (e : entry) : option string :=
  let loc := Py.strip (Py.or_empty (entry_get e "locationname")) in
  if Py.truthy loc then Some loc
  else
    let city := Py.strip (Py.or_empty (entry_get e "city")) in
    let state := Py.strip (Py.or_empty (entry_get e "state")) in
    let country := Py.strip (Py.or_empty (entry_get e "country")) in
    normalize_location (Some country) (Some state) (Some city).

Fixpoint mathworks_entries (es : list entry) (jobs : list Job) : list Job :=
  match es with
  | [] => jobs
  | e :: rest =>
      let title := Py.strip (Py.or_empty (entry_get e "title")) in
      let url := Py.or_empty (entry_get e "link") in
      if negb (Py.truthy title) || negb (Py.truthy url) then mathworks_entries rest jobs
      else
        let stable_id := url_hash16 url in
        let location := extract_location_from_entry e in
        mathworks_entries rest
          (jobs ++ [mkJob "MathWorks" ("MathWorks:" +:+ stable_id) title url location None])
  end.

Definition scrape_mathworks : M (list Job) :=
  resp <- requests_get (Request RSS_URL []) ;;
  _ <- lift (raise_for_status resp) ;;
  let feed := feedparser_parse W (text resp) in
  ret (mathworks_entries feed []).

End WithWorld.

(** Running a connector from an empty request log. *)
Definition run {A : Type} (m : M A) : result A * list request := m [].

(** ** Reference definitions, written after the wording of the specification *)

Module Spec.



Definition is_empty (s : string) : bool := negb (Py.truthy s).


(** "splits key on - into at most 3 parts; if not exactly 3 parts, returns
    the key unchanged; else reconstructs City, State, Country omitting state
    if empty, with city underscores converted back to spaces." *)
Definition display (key : string) : string :=
  match Py.split_max hyphen 2 key with
  | [country; state; city] =>
      let city := Py.replace_char underscore space city in
      if is_empty state then city +:+ ", " +:+ country
      else city +:+ ", " +:+ state +:+ ", " +:+ country
  | _ => key
  end.

(** "Walks preferred_ids in priority order, returns the first non-empty one" *)
Fixpoint first_non_empty (preferred_ids : list (option string)) : option string :=
  match preferred_ids with
  | [] => None
  | Some s :: r => if is_empty s then first_non_empty r else Some s
  | None :: r => first_non_empty r
  end.

(** "if all are empty, returns the first 16 hex characters of a
    cryptographic hash of the UTF-8-encoded canonical URL" *)
Definition stable_id (preferred_ids : list (option string)) (canonical_url : string) : string :=
  match first_non_empty preferred_ids with
  | Some s => s
  | None => url_hash16 canonical_url
  end.

(** "Final job_id is {company}:{stable_id}" *)
Definition resolve_id (company : string) (preferred_ids : list (option string))
    (canonical_url : string) : string :=
  company +:+ ":" +:+ stable_id preferred_ids canonical_url.

End Spec.

(** Title-cased text: no lower-case letter where a word starts, no
    upper-case letter inside a word. *)
Fixpoint titled_from (prev_cased : bool) (s : string) : bool :=
  match s with
  | EmptyString => true
  | String c r =>
      negb (if prev_cased then Py.is_upper c else Py.is_lower c)
      && titled_from (Py.is_cased c) r
  end.

Definition is_titled (s : string) : bool := titled_from false s.

(** A canonical location key: a value the normaliser can return. *)
Definition canonical_key (k : string) : Prop :=
  exists country state city, normalize_location country state city = Some k.

(** A job_id of the form Company:stable-id with a non-empty stable id. *)
Definition well_formed_id (j : Job) : Prop :=
  exists stable, stable <> "" /\ job_id j = company j +:+ ":" +:+ stable.

(** A location that is absent or a canonical key. *)
Definition location_ok (o : option string) : Prop :=
  match o with
  | None => True
  | Some k => canonical_key k
  end.

Definition job_ok (co : string) (j : Job) : Prop :=
  company j = co /\ well_formed_id j /\ location_ok (location j).

(** The accumulation map of a connector: distinct keys, each the job_id of
    the job stored under it. *)
Definition dict_inv (P : Job -> Prop) (d : list (string * Job)) : Prop :=
  NoDup (List.map fst d) /\
  Forall (fun kv => job_id (snd kv) = fst kv /\ P (snd kv)) d.


(** The search API answers every page that arrives with the one [item]. *)
Definition same_item_forever (W : world) (item : json) : Prop :=
  forall params log data log',
    _request W params log = (Ok data, log') ->
    PyVal.get_default data "jobs" (JList []) = Ok (JList [item]).




(** The exceptions a request raises: no usable reply, or an error status. *)
Definition request_failure (e : exn) : bool :=
  match e with
  | ConnectionError | HTTPError => true
  | _ => false
  end.








(** A feed entry the feed connector keeps. *)
Definition entry_kept (e : entry) : bool :=
  Py.truthy (Py.strip (Py.or_empty (entry_get e "title")))
  && Py.truthy (Py.or_empty (entry_get e "link")).

(** An optional upstream identifier as it sits in a JSON payload. *)
Definition json_of_id (id : option string) : json :=
  match id with
  | Some s => JStr s
  | None => JNull
  end.

Definition is_hex_digit (c : ascii) : bool :=
  Py.between 48 57 c || Py.between 97 102 c.

Fixpoint all_chars (p : ascii -> bool) (s : string) : bool :=
  match s with
  | EmptyString => true
  | String c r => p c && all_chars p r
  end.

(** Windows-1252, the code page through which the bytes of the literal in
    [display_location] were once read. *)
Definition cp1252 (b : N) : N :=
  match b with
  | 0x80 => 0x20AC | 0x82 => 0x201A | 0x83 => 0x0192 | 0x84 => 0x201E
  | 0x85 => 0x2026 | 0x86 => 0x2020 | 0x87 => 0x2021 | 0x88 => 0x02C6
  | 0x89 => 0x2030 | 0x8A => 0x0160 | 0x8B => 0x2039 | 0x8C => 0x0152
  | 0x8E => 0x017D | 0x91 => 0x2018 | 0x92 => 0x2019 | 0x93 => 0x201C
  | 0x94 => 0x201D | 0x95 => 0x2022 | 0x96 => 0x2013 | 0x97 => 0x2014
  | 0x98 => 0x02DC | 0x99 => 0x2122 | 0x9A => 0x0161 | 0x9B => 0x203A
  | 0x9C => 0x0153 | 0x9E => 0x017E | 0x9F => 0x0178
  | _ => b
  end%N.

Definition em_dash : N := 0x2014%N.

(** The URLs requested so far. *)
Definition urls_of (log : list request) : list string := List.map req_url log.

(** What the sitemap crawl maintains between its state and the request log:
    the visited set holds exactly the URLs requested, each requested once. *)
Definition crawl_inv (st : crawl_state) (log : list request) : Prop :=
  NoDup (urls_of log) /\ visited st = list_to_set (urls_of log).

(** ** Small worlds on which the connectors can be run *)

Module Demo.

Definition no_html : html_doc := HtmlDoc None None "".

(** A world given by its network, its JSON decoder, its feed parser and its
    XML parser; pages have no content and no URL parses. *)
Definition world_of (net : list request -> request -> http_reply)
    (json : string -> option json) (feed : string -> list entry)
    (xml : string -> option (list xml_element)) : world :=
  World net json feed xml (fun _ => no_html) (fun _ => None) (fun _ => false)
        (fun _ => None) (fun _ => None) (fun _ => None).

(** Nothing answers. *)
Definition silent : world :=
  world_of (fun _ _ => NoReply) (fun _ => None) (fun _ => []) (fun _ => None).

Definition posting : json :=
  JDict [("title", JStr " Engineer "); ("job_path", JStr "/en/jobs/1");
         ("id", JStr "1"); ("city", JStr "seattle"); ("state", JStr "wa");
         ("country_code", JStr "us")].

Definition decode_page (body : string) : option json :=
  if String.eqb body "page" then Some (JDict [("jobs", JList [posting])])
  else None.

(** The search API answers the first request and is unreachable afterwards. *)
Definition one_page_then_down : world :=
  world_of (fun log _ => match log with [] => Reply 200 "page" | _ => NoReply end)
           decode_page (fun _ => []) (fun _ => None).

(** The search API answers every request with the same single posting. *)
Definition same_page_forever : world :=
  world_of (fun _ _ => Reply 200 "page") decode_page (fun _ => []) (fun _ => None).

Definition feed_entry : entry :=
  [("title", "Engineer"); ("link", "https://example.org/job/1");
   ("locationname", " Remote ")].

(** A feed that lists the same posting twice. *)
Definition repeating_feed : world :=
  world_of (fun _ _ => Reply 200 "feed") (fun _ => None)
           (fun _ => [feed_entry; feed_entry]) (fun _ => None).

Definition sm (name : string) : string :=
  "https://www.3ds.com/sitemap/" +:+ name +:+ ".xml".

Definition loc_el (u : string) : xml_element := Element "loc" (Some u).

(** A sitemap index with two children that both point to the same
    grandchild; every reply carries the URL it answers as its body. *)
Definition diamond_xml (body : string) : option (list xml_element) :=
  if String.eqb body SITEMAP_INDEX then Some [loc_el (sm "a"); loc_el (sm "b")]
  else if String.eqb body (sm "a") then Some [loc_el (sm "c"); loc_el (sm "a")]
  else if String.eqb body (sm "b") then Some [loc_el (sm "c"); loc_el SITEMAP_INDEX]
  else Some [].

Definition diamond : world :=
  world_of (fun _ rq => Reply 200 (req_url rq)) (fun _ => None) (fun _ => [])
           diamond_xml.

Definition drop (n : nat) (s : string) : string :=
  String.substring n (String.length s - n) s.

(** A careers site: the index points to one nested sitemap, which lists one
    job page, one other page and the index again.  URLs are taken apart and
    matched in the simplest way that serves these pages. *)
Definition careers_xml (body : string) : option (list xml_element) :=
  if String.eqb body SITEMAP_INDEX then Some [loc_el (sm "jobs")]
  else if String.eqb body (sm "jobs") then
    Some [loc_el "https://www.3ds.com/careers/jobs/engineer-546412";
          loc_el "https://www.3ds.com/about";
          loc_el SITEMAP_INDEX]
  else None.

Definition careers : world :=
  World (fun _ rq => Reply 200 (req_url rq)) (fun _ => None) (fun _ => [])
        careers_xml
        (fun _ => HtmlDoc (Some "Engineer") None "Engineer Location: France, Paris")
        (fun u => if Py.startswith "https://www.3ds.com" u
                  then Some (ParsedUrl "https" "www.3ds.com" (drop 19 u)) else None)
        (fun p => Py.startswith "/careers/jobs/" p)
        (fun _ => Some "France, Paris ")
        (fun _ => None)
        (fun _ => Some "546412").

(** A sitemap index whose only child is not well-formed XML. *)
Definition broken_child : world :=
  world_of (fun _ rq => Reply 200 (req_url rq)) (fun _ => None) (fun _ => [])
           (fun body => if String.eqb body SITEMAP_INDEX then Some [loc_el (sm "jobs")]
                        else None).

(** The careers site behind a network on which nothing but the two
    sitemaps answers. *)
Definition careers_flaky : world :=
  World (fun _ rq => if String.eqb (req_url rq) (sm "jobs") then Reply 200 (req_url rq)
                     else if String.eqb (req_url rq) SITEMAP_INDEX then Reply 200 (req_url rq)
                     else Reply 503 "")
        (json_loads careers) (feedparser_parse careers) careers_xml
        (html_parse careers) (urlparse careers) (JOB_PATH_RE_match careers)
        (LOCATION_RE_search careers) (REFID_RE_search careers)
        (NUMERIC_ID_RE_search careers).

End Demo.

(** ** Further definitions: the rest of the connectors' code *)

From Stdlib Require Import Sorted.

(** [scrape_dassault_dicts]: each job as a dict of strings, with
    [location or ""] and [description or ""]. *)
Definition job_dict (j : Job) : list (string * string) :=
  [("company", company j); ("job_id", job_id j); ("title", title j);
   ("url", url j); ("location", Py.or_empty (location j));
   ("description", Py.or_empty (description j))].

Definition scrape_dassault_dicts (W : world) (max_jobs max_sitemaps : option Z)
    (fuel : nat) : M (list (list (string * string))) :=
  jobs <- scrape_dassault W max_jobs max_sitemaps fuel ;;
  ret (List.map job_dict jobs).

(** The value a request carries under a parameter name. *)
Fixpoint param_get (k : string) (ps : list (string * param)) : option param :=
  match ps with
  | [] => None
  | (k', v) :: r => if String.eqb k' k then Some v else param_get k r
  end.

(** The offset a page request asks for. *)
Definition request_offset (rq : request) : Z :=
  match param_get "offset" (req_params rq) with
  | Some (PInt z) => z
  | _ => 0
  end.

(** A string without white space. *)
Definition no_space (s : string) : bool :=
  all_chars (fun c => negb (Py.is_space c)) s.

(** A string that [strip] leaves as it is. *)
Definition is_stripped (s : string) : Prop := Py.strip s = s.

(** What the sitemap discovery keeps true of its state: the queue holds
    sitemap locations only; the job URLs found are distinct, are exactly the
    members of [seen_jobs], match the job URL shape and are no sitemap
    locations. *)
Definition queue_inv (W : world) (st : crawl_state) : Prop :=
  Forall (fun u => is_sitemap_loc u = true) (to_visit st) /\
  NoDup (job_urls st) /\
  seen_jobs st = list_to_set (job_urls st) /\
  Forall (fun u => _is_job_url W u = true /\ is_sitemap_loc u = false) (job_urls st).

Definition detail_request (u : string) : request := Request u [].

(** The offsets of the page requests of a run, in the order they were made. *)
Definition offsets_of (log : list request) : list Z := List.map request_offset log.

(** What every job of the paginated connector looks like. *)
Definition amazon_job_shape (j : Job) : Prop :=
  company j = "Amazon" /\ title j <> "" /\ is_stripped (title j) /\
  (exists job_path, job_path <> "" /\ url j = BASE +:+ job_path) /\
  description j = None.

(** What every job of the sitemap connector looks like. *)
Definition dassault_job_shape (W : world) (j : Job) : Prop :=
  company j = COMPANY /\ title j <> "" /\ is_stripped (title j) /\
  _is_job_url W (url j) = true /\ is_sitemap_loc (url j) = false /\
  description j = None.

(** What every job of the feed connector looks like. *)
Definition mathworks_job_shape (j : Job) : Prop :=
  company j = "MathWorks" /\ title j <> "" /\ is_stripped (title j) /\
  url j <> "" /\ description j = None.

(** The keys of the dicts [scrape_dassault_dicts] returns. *)
Definition job_dict_keys : list string :=
  ["company"; "job_id"; "title"; "url"; "location"; "description"].

(** [j.get(k)] for a dict given by its items. *)
Definition field (d : list (string * json)) (k : string) : json :=
  match PyVal.lookup k d with
  | Some v => v
  | None => JNull
  end.

(** [isinstance(v, str)] *)
Definition is_str (v : json) : bool :=
  match v with
  | JStr _ => true
  | _ => false
  end.

(** A title that is missing, null, otherwise falsy, or a blank string. *)
Definition blank_title (t : json) : Prop :=
  PyVal.truthy t = false \/ exists s, t = JStr s /\ Py.strip s = "".

(** Every page that arrives reports an integer hit count of at most [H]. *)
Definition hits_at_most (W : world) (H : Z) : Prop :=
  forall params log data log',
    _request W params log = (Ok data, log') ->
    exists hits h,
      PyVal.get data "hits" = Ok hits /\ PyVal.as_int hits = Some h /\ (h <= H)%Z.

(** A site with finitely many sitemaps: what the site serves for a sitemap
    among [sitemaps], when it is well-formed, lists at most [width]
    locations, and those of them that are sitemap locations are among
    [sitemaps] again. *)
Definition finite_site (W : world) (sitemaps : list string) (width : nat) : Prop :=
  In SITEMAP_INDEX sitemaps /\
  forall u log xml_text log' els,
    In u sitemaps ->
    _get W u log = (Ok xml_text, log') ->
    xml_fromstring W xml_text = Some els ->
    (List.length (filter_locs els) <= width)%nat /\
    forall loc, In loc (filter_locs els) -> is_sitemap_loc loc = true -> In loc sitemaps.

(** Every page the search API serves reports 1 hit. *)
Definition decode_counted (body : string) : option json :=
  if String.eqb body "page" then Some (JDict [("jobs", JList [Demo.posting]); ("hits", JInt 1)])
  else None.

Definition counted_pages : world :=
  Demo.world_of (fun _ _ => Reply 200 "page") decode_counted (fun _ => []) (fun _ => None).
(** * Properties *)

(** ** Checks of the primitives on known values *)

Example sha_abc : Sha256.hexdigest "abc" = "ba7816bf8f01cfea414140de5dae2223b00361a396177a9cb410ff61f20015ad".
Proof. vm_compute. reflexivity. Qed.

Example sha_empty : Sha256.hexdigest "" = "e3b0c44298fc1c149afbf4c8996fb92427ae41e4649b934ca495991b7852b855".
Proof. vm_compute. reflexivity. Qed.

Example sha_two_blocks :
  Sha256.hexdigest "abcdbcdecdefdefgefghfghighijhijkijkljklmklmnlmnomnopnopq"
  = "248d6a61d20638b8e5c026930c3e6039a33ce45964ff2167f6ecedd419db06c1".
Proof. vm_compute. reflexivity. Qed.

Example sha_constants :
  List.length Sha256.K = 64%nat /\
  List.nth 0 Sha256.K 0%N = 0x428a2f98%N /\ List.nth 63 Sha256.K 0%N = 0xc67178f2%N /\
  Sha256.ra Sha256.H0 = 0x6a09e667%N /\ Sha256.rh Sha256.H0 = 0x5be0cd19%N.
Proof. repeat split. Qed.

Example url_hash16_xy : url_hash16 "https://x/y" = "5b416034726ea113".
Proof. vm_compute. reflexivity. Qed.

Example normalize_natick :
  normalize_location (Some "us") (Some "ma") (Some "natick") = Some "US-MA-Natick".
Proof. reflexivity. Qed.

Example normalize_new_york :
  normalize_location (Some " us ") None (Some "  new   york city ")
  = Some "US--New_York_City".
Proof. reflexivity. Qed.

Example display_natick :
  display_location (Some "US-MA-Natick") = "Natick, MA, US".
Proof. reflexivity. Qed.

Example display_hyphen_city :
  display_location (Some "FR--Saint-Jean_De_Luz") = "Saint-Jean De Luz, FR".
Proof. reflexivity. Qed.

Example display_one_hyphen : display_location (Some "US-MA") = "US-MA".
Proof. reflexivity. Qed.

(** ** Characters *)

Ltac each_ascii c :=
  destruct c as [[] [] [] [] [] [] [] []]; vm_compute; try reflexivity; try discriminate; auto.




Lemma lower_char_not_space c : Py.is_space c = false -> Py.lower_char c <> space.
Proof. intros H E. revert H E. each_ascii c. Qed.

Lemma upper_char_not_space c : Py.is_space c = false -> Py.upper_char c <> space.
Proof. intros H E. revert H E. each_ascii c. Qed.

Lemma space_is_space : Py.is_space space = true.
Proof. reflexivity. Qed.


(** ** Strings *)

Lemma app_String c a b : String c a +:+ b = String c (a +:+ b).
Proof. reflexivity. Qed.

Lemma app_empty b : "" +:+ b = b.
Proof. reflexivity. Qed.

Ltac sapp := rewrite ?app_String, ?app_empty.


Lemma append_assoc (a b c : string) : (a +:+ b) +:+ c = a +:+ (b +:+ c).
Proof. induction a as [|x a IH]; sapp; [reflexivity | now rewrite IH]. Qed.

Lemma truthy_smap f s : Py.truthy (Py.smap f s) = Py.truthy s.
Proof. destruct s; reflexivity. Qed.

Lemma truthy_false s : Py.truthy s = false -> s = "".
Proof. destruct s; [reflexivity | discriminate]. Qed.

Lemma truthy_true s : Py.truthy s = true -> s <> "".
Proof. destruct s; [discriminate | intros _ E; discriminate E]. Qed.

Lemma smap_append f a b : Py.smap f (a +:+ b) = Py.smap f a +:+ Py.smap f b.
Proof. induction a as [|x a IH]; sapp; simpl; [reflexivity | now rewrite IH]. Qed.



Lemma join_cons_String sep x a l :
  PyVal.join sep (String x a :: l) = String x (PyVal.join sep (a :: l)).
Proof. destruct l; reflexivity. Qed.

Lemma join_cons_empty sep a l :
  PyVal.join sep ("" :: a :: l) = sep +:+ PyVal.join sep (a :: l).
Proof. reflexivity. Qed.

Lemma split_max_nonnil sep n s : Py.split_max sep n s <> [].
Proof.
  destruct s as [|c r]; simpl; [discriminate|].
  destruct n; [discriminate|].
  destruct (Ascii.eqb c sep); [discriminate|].
  destruct (Py.split_max sep (S n) r); discriminate.
Qed.






(** ** Occurrences of a character, and splitting *)


Lemma has_char_append c a b :
  Py.has_char c (a +:+ b) = Py.has_char c a || Py.has_char c b.
Proof.
  induction a as [|x a IH]; sapp; simpl; [reflexivity|].
  rewrite IH. now rewrite orb_assoc.
Qed.

Lemma count_char_append c a b :
  Py.count_char c (a +:+ b) = (Py.count_char c a + Py.count_char c b)%nat.
Proof. induction a as [|x a IH]; sapp; simpl; [reflexivity | rewrite IH; lia]. Qed.









Lemma split_max_zero sep s : Py.split_max sep 0 s = [s].
Proof. destruct s; reflexivity. Qed.

Lemma split_max_prefix sep n a r :
  Py.has_char sep a = false ->
  Py.split_max sep (S n) (a +:+ String sep r) = a :: Py.split_max sep n r.
Proof.
  induction a as [|x a IH]; sapp; simpl.
  - intros _. now rewrite Ascii.eqb_refl.
  - intros H. apply orb_false_iff in H as [Hx Ha].
    rewrite Hx. rewrite (IH Ha). reflexivity.
Qed.

Lemma split_max_no_sep sep n a :
  Py.has_char sep a = false -> Py.split_max sep n a = [a].
Proof.
  induction a as [|x a IH]; simpl; [reflexivity|].
  intros H. apply orb_false_iff in H as [Hx Ha].
  destruct n; [reflexivity|]. rewrite Hx. now rewrite (IH Ha).
Qed.

(** A key built from a hyphen-free country and state splits back into its
    three components, whatever the city holds. *)
Lemma split_key c s ci :
  Py.has_char hyphen c = false -> Py.has_char hyphen s = false ->
  Py.split_max hyphen 2 (c +:+ "-" +:+ s +:+ "-" +:+ ci) = [c; s; ci].
Proof.
  intros Hc Hs.
  change (c +:+ "-" +:+ s +:+ "-" +:+ ci)
    with (c +:+ String hyphen (s +:+ String hyphen ci)).
  rewrite (split_max_prefix _ _ _ _ Hc), (split_max_prefix _ _ _ _ Hs), split_max_zero.
  reflexivity.
Qed.

Lemma split_max_length sep n s :
  (1 <= List.length (Py.split_max sep n s) <= S n)%nat.
Proof.
  revert n. induction s as [|x s IH]; intros n; simpl; [lia|].
  destruct n; simpl; [lia|].
  destruct (Ascii.eqb x sep); simpl.
  - specialize (IH n). lia.
  - specialize (IH (S n)). destruct (Py.split_max sep (S n) s); simpl in *; lia.
Qed.

(** What [split_max] returns, joined by the separator, is the string; all
    parts but the last are free of the separator when the limit was hit. *)
Lemma split_max_join sep n s :
  PyVal.join (String sep "") (Py.split_max sep n s) = s.
Proof.
  revert n. induction s as [|x s IH]; intros n; simpl; [reflexivity|].
  destruct n; [reflexivity|].
  destruct (Ascii.eqb x sep) eqn:E.
  - apply Ascii.eqb_eq in E. subst x.
    specialize (IH n). destruct (Py.split_max sep n s) eqn:Es.
    + now apply split_max_nonnil in Es.
    + rewrite join_cons_empty, IH. reflexivity.
  - specialize (IH (S n)). destruct (Py.split_max sep (S n) s) eqn:Es.
    + now apply split_max_nonnil in Es.
    + rewrite join_cons_String, IH. reflexivity.
Qed.

Lemma split_max_three sep s a b c :
  Py.split_max sep 2 s = [a; b; c] ->
  s = a +:+ String sep (b +:+ String sep c) /\
  Py.has_char sep a = false /\ Py.has_char sep b = false.
Proof.
  assert (H1 : forall s b c, Py.split_max sep 1 s = [b; c] ->
            s = b +:+ String sep c /\ Py.has_char sep b = false).
  { clear. induction s as [|x s IH]; intros b c; simpl; [discriminate|].
    destruct (Ascii.eqb x sep) eqn:E.
    - rewrite split_max_zero. intros [= <- <-]. apply Ascii.eqb_eq in E. subst x.
      split; reflexivity.
    - destruct (Py.split_max sep 1 s) as [|h t] eqn:Es; [discriminate|].
      intros [= <- ->]. destruct (IH _ _ eq_refl) as [-> Hh].
      split; [reflexivity|]. simpl. now rewrite E. }
  revert a b c. induction s as [|x s IH]; intros a b c; simpl; [discriminate|].
  destruct (Ascii.eqb x sep) eqn:E.
  - destruct (Py.split_max sep 1 s) as [|h [|h2 [|h3 t]]] eqn:Es; try discriminate.
    intros [= <- <- <-]. apply Ascii.eqb_eq in E. subst x.
    destruct (H1 _ _ _ Es) as [-> Hb]. repeat split; auto.
  - destruct (Py.split_max sep 2 s) as [|h t] eqn:Es; [discriminate|].
    intros [= <- ->]. destruct (IH _ _ _ eq_refl) as (-> & Ha & Hb).
    repeat split; auto. simpl. now rewrite E.
Qed.

Lemma truthy_append_String a c b : Py.truthy (a +:+ String c b) = true.
Proof. destruct a; reflexivity. Qed.

Lemma has_char_true_split sep s :
  Py.has_char sep s = true ->
  exists a r, s = a +:+ String sep r /\ Py.has_char sep a = false.
Proof.
  induction s as [|x s IH]; simpl; [discriminate|].
  destruct (Ascii.eqb x sep) eqn:E; simpl.
  - intros _. apply Ascii.eqb_eq in E. subst x. exists "", s. split; reflexivity.
  - intros H. destruct (IH H) as (a & r & -> & Ha).
    exists (String x a), r. split; [reflexivity|]. simpl. now rewrite E.
Qed.

Lemma count_pos_has_char c s : (1 <= Py.count_char c s)%nat -> Py.has_char c s = true.
Proof.
  intros H. destruct (Py.has_char c s) eqn:E; [reflexivity|].
  assert (Py.count_char c s = O); [|lia].
  clear H. induction s as [|x s IH]; simpl in *; [reflexivity|].
  apply orb_false_iff in E as [-> Hs]. simpl. auto.
Qed.

Lemma count_char_sep c r : Py.count_char c (String c r) = S (Py.count_char c r).
Proof. simpl. now rewrite Ascii.eqb_refl. Qed.

Lemma has_char_false_count c s : Py.has_char c s = false -> Py.count_char c s = O.
Proof.
  induction s as [|x s IH]; simpl; [reflexivity|].
  intros H. apply orb_false_iff in H as [-> Hs]. simpl. auto.
Qed.

(** Exactly three parts come out of [split("-", 2)] when, and only when,
    the key holds two hyphens or more. *)
Lemma three_parts_iff key :
  List.length (Py.split_max hyphen 2 key) = 3%nat <-> (2 <= Py.count_char hyphen key)%nat.
Proof.
  split.
  - intros H. destruct (Py.split_max hyphen 2 key) as [|a [|b [|c [|]]]] eqn:E;
      try discriminate.
    apply split_max_three in E as (-> & _ & _).
    rewrite count_char_append, count_char_sep, count_char_append, count_char_sep. lia.
  - intros H.
    destruct (has_char_true_split hyphen key) as (a & r & -> & Ha);
      [apply count_pos_has_char; lia|].
    rewrite count_char_append, count_char_sep, (has_char_false_count _ _ Ha) in H.
    destruct (has_char_true_split hyphen r) as (b & c & -> & Hb);
      [apply count_pos_has_char; lia|].
    rewrite (split_max_prefix _ _ _ _ Ha), (split_max_prefix _ _ _ _ Hb), split_max_zero.
    reflexivity.
Qed.


Lemma count_hyphen_replace s :
  Py.count_char hyphen (Py.replace_char underscore space s) = Py.count_char hyphen s.
Proof.
  unfold Py.replace_char. induction s as [|x s IH]; simpl; [reflexivity|].
  rewrite IH. f_equal. clear. each_ascii x.
Qed.







(** ** The normaliser *)

Lemma titled_title_from z :
  forall b, titled_from b (Py.replace_char space underscore (Py.title_from b z)) = true.
Proof.
  unfold Py.replace_char.
  induction z as [|c z IH]; intros b; simpl; [reflexivity|].
  apply andb_true_iff. split.
  - clear. destruct b; each_ascii c.
  - replace (Py.is_cased (if Ascii.eqb (if b then Py.lower_char c else Py.upper_char c) space
                          then underscore
                          else if b then Py.lower_char c else Py.upper_char c))
      with (Py.is_cased c); [apply IH|].
    clear. destruct b; each_ascii c.
Qed.

(** The city part of a key is title-cased. *)
Lemma clean_city_titled city : is_titled (_clean_city city) = true.
Proof.
  unfold _clean_city, is_titled.
  destruct (Py.truthy (Py.strip city)); simpl; [|reflexivity].
  apply titled_title_from.
Qed.



Lemma normalize_location_key country state city k :
  normalize_location country state city = Some k ->
  k = Py.upper (Py.strip (Py.or_empty country))
        +:+ String hyphen (Py.upper (Py.strip (Py.or_empty state))
        +:+ String hyphen (_clean_city (Py.or_empty city))).
Proof.
  unfold normalize_location.
  destruct (negb _); [discriminate|]. intros [= <-]. reflexivity.
Qed.

(** A canonical key holds two hyphens at least. *)
Lemma canonical_key_hyphens k : canonical_key k -> (2 <= Py.count_char hyphen k)%nat.
Proof.
  intros (c & s & ci & H). apply normalize_location_key in H. subst k.
  rewrite count_char_append, count_char_sep, count_char_append, count_char_sep. lia.
Qed.


(** ** ASCII text stays ASCII *)

Lemma isascii_String c r :
  Py.isascii (String c r) = (Py.code c <? 128)%N && Py.isascii r.
Proof. reflexivity. Qed.


Lemma isascii_lstrip s : Py.isascii s = true -> Py.isascii (Py.lstrip s) = true.
Proof.
  induction s as [|c s IH]; [reflexivity|]. intros H. cbn [Py.lstrip].
  destruct (Py.is_space c); [|exact H].
  rewrite isascii_String in H. apply andb_prop in H as [_ H]. now apply IH.
Qed.

Lemma isascii_rstrip s : Py.isascii s = true -> Py.isascii (Py.rstrip s) = true.
Proof.
  induction s as [|c s IH]; [reflexivity|]. intros H.
  rewrite isascii_String in H. apply andb_prop in H as [Hc H].
  specialize (IH H). cbn [Py.rstrip].
  destruct (Py.rstrip s) as [|d r].
  - destruct (Py.is_space c); [reflexivity|]. now rewrite isascii_String, Hc.
  - now rewrite isascii_String, Hc.
Qed.

Lemma isascii_strip s : Py.isascii s = true -> Py.isascii (Py.strip s) = true.
Proof. intros H. now apply isascii_rstrip, isascii_lstrip. Qed.

Lemma isascii_smap f s :
  (forall c, (Py.code c <? 128)%N = true -> (Py.code (f c) <? 128)%N = true) ->
  Py.isascii s = true -> Py.isascii (Py.smap f s) = true.
Proof.
  intros Hf. induction s as [|c s IH]; [reflexivity|]. intros H.
  rewrite isascii_String in H. apply andb_prop in H as [Hc H].
  cbn [Py.smap]. now rewrite isascii_String, (Hf c Hc), IH.
Qed.

Lemma upper_char_ascii c :
  (Py.code c <? 128)%N = true -> (Py.code (Py.upper_char c) <? 128)%N = true.
Proof. each_ascii c. Qed.

Lemma lower_char_ascii c :
  (Py.code c <? 128)%N = true -> (Py.code (Py.lower_char c) <? 128)%N = true.
Proof. each_ascii c. Qed.


Lemma isascii_title_from b s :
  Py.isascii s = true -> Py.isascii (Py.title_from b s) = true.
Proof.
  revert b. induction s as [|c s IH]; intros b H; [reflexivity|].
  rewrite isascii_String in H. apply andb_prop in H as [Hc H].
  cbn [Py.title_from]. rewrite isascii_String, (IH _ H), andb_true_r.
  destruct b; [now apply lower_char_ascii | now apply upper_char_ascii].
Qed.

Lemma isascii_collapse_from b s :
  Py.isascii s = true -> Py.isascii (Py.collapse_from b s) = true.
Proof.
  revert b. induction s as [|c s IH]; intros b H; [reflexivity|].
  rewrite isascii_String in H. apply andb_prop in H as [Hc H].
  cbn [Py.collapse_from]. destruct (Py.is_space c); [destruct b|].
  - now apply IH.
  - rewrite isascii_String, (IH _ H). reflexivity.
  - now rewrite isascii_String, Hc, (IH _ H).
Qed.

Lemma isascii_clean_city city :
  Py.isascii city = true -> Py.isascii (_clean_city city) = true.
Proof.
  intros H. unfold _clean_city.
  destruct (negb (Py.truthy (Py.strip city))); [reflexivity|].
  apply isascii_smap.
  - intros c Hc. destruct (Ascii.eqb c space); [reflexivity | exact Hc].
  - now apply isascii_title_from, isascii_collapse_from, isascii_strip.
Qed.






(** ** The display formatter *)

Lemma display_location_nonempty key :
  key <> "" -> display_location (Some key) = Spec.display key.
Proof.
  intros Hk. unfold display_location, Spec.display, Spec.is_empty.
  destruct key as [|x r]; [contradiction|]. cbn [Py.truthy negb].
  destruct (Py.split_max hyphen 2 (String x r)) as [|a [|b [|c [|]]]]; try reflexivity.
  destruct (Py.truthy b); reflexivity.
Qed.

(** C7, as stated, at the empty key: [split] gives one part, yet what
    comes back is not the key. *)
Lemma display_empty_key_not_unchanged :
  Py.split_max hyphen 2 "" = [""] /\ Spec.display "" = "" /\
  display_location (Some "") <> "".
Proof. repeat split. vm_compute. discriminate. Qed.

(** C7 (amended): for a non-empty key, [display_location] splits on the
    hyphen at most twice, into at most three parts; with other than three
    parts the key comes back unchanged; with three it returns
    City, State, Country, the state left out when empty and the underscores
    of the city turned into spaces; a hyphen inside the city segment stays in
    the third part. *)
Theorem display_location_correct (key : string) (Hkey : key <> "") :
  display_location (Some key) = Spec.display key /\
  (List.length (Py.split_max hyphen 2 key) <= 3)%nat /\
  (List.length (Py.split_max hyphen 2 key) <> 3%nat -> display_location (Some key) = key) /\
  (List.length (Py.split_max hyphen 2 key) = 3%nat <-> (2 <= Py.count_char hyphen key)%nat) /\
  (forall country state city,
     Py.split_max hyphen 2 key = [country; state; city] ->
     key = country +:+ "-" +:+ state +:+ "-" +:+ city /\
     display_location (Some key) =
       Py.replace_char underscore space city +:+ ", "
         +:+ (if Py.truthy state then state +:+ ", " else "") +:+ country /\
     Py.count_char hyphen (Py.replace_char underscore space city)
       = Py.count_char hyphen city) /\
  (forall country state city,
     Py.has_char hyphen country = false -> Py.has_char hyphen state = false ->
     key = country +:+ "-" +:+ state +:+ "-" +:+ city ->
     Py.split_max hyphen 2 key = [country; state; city]).
Proof.
  pose proof (display_location_nonempty key Hkey) as Hd.
  split; [exact Hd|].
  split; [apply split_max_length|].
  split.
  { intros Hn. rewrite Hd. unfold Spec.display.
    destruct (Py.split_max hyphen 2 key) as [|a [|b [|c [|]]]]; try reflexivity.
    now contradiction Hn. }
  split; [apply three_parts_iff|].
  split.
  - intros c s ci Hs. split; [apply (split_max_three _ _ _ _ _ Hs)|].
    split; [|apply count_hyphen_replace].
    rewrite Hd. unfold Spec.display, Spec.is_empty. rewrite Hs.
    destruct (Py.truthy s); simpl negb; cbv iota; [|reflexivity].
    now rewrite !append_assoc.
  - intros c s ci Hc Hs ->. now apply split_key.
Qed.

Lemma display_location_correct_witness :
  "FR--Saint-Jean_De_Luz" <> "" /\
  display_location (Some "FR--Saint-Jean_De_Luz") = "Saint-Jean De Luz, FR".
Proof.
  assert (H : "FR--Saint-Jean_De_Luz" <> "") by discriminate.
  split; [exact H|].
  destruct (display_location_correct "FR--Saint-Jean_De_Luz" H)
    as (_ & _ & _ & _ & Hparts & _).
  destruct (Hparts "FR" "" "Saint-Jean_De_Luz" eq_refl) as (_ & Hd & _).
  exact Hd.
Defined.

(** C10: without a key, or with the empty key, [display_location] returns
    the fixed three-character literal, which is what the three bytes of an
    em dash read as under Windows-1252; it neither raises nor returns the
    empty key unchanged. *)
Theorem display_location_missing_key :
  display_location None = placeholder /\
  display_location (Some "") = placeholder /\
  placeholder <> "" /\
  display_location (Some "") <> "" /\
  placeholder = utf8 (List.map cp1252 (List.map N_of_ascii (utf8_encode em_dash))) /\
  List.map N_of_ascii (list_ascii_of_string placeholder)
    = [0xC3; 0xA2; 0xE2; 0x82; 0xAC; 0xE2; 0x80; 0x9D]%N.
Proof. repeat split; vm_compute; congruence. Qed.

(** ** Display after normalisation *)






(** ** Results and the request monad *)

Lemma rbind_Ok {A B} (m : result A) (k : A -> result B) b :
  rbind m k = Ok b -> exists a, m = Ok a /\ k a = Ok b.
Proof. destruct m; simpl; try discriminate. intros H. eauto. Qed.

Ltac rbind_inv H :=
  let a := fresh "v" in
  let Ha := fresh "Hv" in
  apply rbind_Ok in H; destruct H as (a & Ha & H).

(** ** Identity resolution *)

Lemma hexdigit_hex x : is_hex_digit (Sha256.hexdigit x) = true.
Proof.
  unfold Sha256.hexdigit.
  assert (H : (x mod 16 < 16)%N) by (apply N.mod_lt; discriminate).
  remember (x mod 16)%N as d eqn:Hd. clear Hd.
  assert (Hc : (d = 0 \/ d = 1 \/ d = 2 \/ d = 3 \/ d = 4 \/ d = 5 \/ d = 6 \/ d = 7 \/
                d = 8 \/ d = 9 \/ d = 10 \/ d = 11 \/ d = 12 \/ d = 13 \/ d = 14 \/
                d = 15)%N) by lia.
  repeat (destruct Hc as [-> | Hc]; [reflexivity|]). subst d. reflexivity.
Qed.

Lemma url_hash16_shape url :
  String.length (url_hash16 url) = 16%nat /\
  all_chars is_hex_digit (url_hash16 url) = true.
Proof.
  unfold url_hash16, Sha256.hexdigest.
  destruct (Sha256.digest _) as [a b c d e f g h].
  cbv [Sha256.hex_of_regs Sha256.hex8 Py.take String.length all_chars
       Sha256.ra Sha256.rb Sha256.rc Sha256.rd Sha256.re Sha256.rf Sha256.rg Sha256.rh].
  rewrite !hexdigit_hex. split; reflexivity.
Qed.

Lemma url_hash16_truthy url : Py.truthy (url_hash16 url) = true.
Proof.
  destruct (url_hash16_shape url) as [H _].
  destruct (url_hash16 url); [discriminate | reflexivity].
Qed.

Lemma amazon_stable_spec id jid url :
  amazon_stable (json_of_id id) (json_of_id jid) url = Spec.stable_id [id; jid] url.
Proof.
  unfold amazon_stable, Spec.stable_id, PyVal.or.
  destruct id as [[|x s]|], jid as [[|y t]|]; simpl;
    try reflexivity; now rewrite url_hash16_truthy.
Qed.

Lemma dassault_stable_spec ref_id url_id url :
  dassault_stable ref_id url_id url = Spec.stable_id [ref_id; url_id] url.
Proof.
  unfold dassault_stable, Spec.stable_id, opt_or.
  destruct ref_id as [[|x s]|], url_id as [[|y t]|]; reflexivity.
Qed.

Lemma first_non_empty_found ids s :
  Spec.first_non_empty ids = Some s ->
  s <> "" /\
  exists before after,
    ids = before ++ Some s :: after /\
    Forall (fun o => o = None \/ o = Some "") before.
Proof.
  induction ids as [|o ids IH]; simpl; [discriminate|].
  destruct o as [t|].
  - destruct t as [|x t]; simpl.
    + intros H. destruct (IH H) as (Hs & b & a & -> & Hb).
      split; [exact Hs|]. exists (Some "" :: b), a. split; [reflexivity|].
      constructor; auto.
    + intros [= <-]. split; [discriminate|].
      exists [], ids. split; [reflexivity | constructor].
  - intros H. destruct (IH H) as (Hs & b & a & -> & Hb).
    split; [exact Hs|]. exists (None :: b), a. split; [reflexivity|].
    constructor; auto.
Qed.

Lemma first_non_empty_none ids :
  Spec.first_non_empty ids = None <-> Forall (fun o => o = None \/ o = Some "") ids.
Proof.
  induction ids as [|o ids IH]; simpl.
  - split; [constructor | reflexivity].
  - destruct o as [[|x t]|]; simpl.
    + rewrite IH. split; [constructor; auto | now inversion 1].
    + split; [discriminate|]. inversion 1 as [|? ? [Hx|Hx]]; discriminate.
    + rewrite IH. split; [constructor; auto | now inversion 1].
Qed.

(** What [amazon_job] builds when it builds a job. *)
Lemma amazon_job_inv W j job :
  amazon_job W j = Ok (Some job) ->
  exists t p id jid loc,
    PyVal.get j "title" = Ok t /\ PyVal.get j "job_path" = Ok p /\
    PyVal.get j "id" = Ok id /\ PyVal.get j "job_id" = Ok jid /\
    _extract_amazon_location W j = Ok loc /\
    PyVal.strip (PyVal.or t (JStr "")) = Ok (title job) /\
    Py.truthy (title job) = true /\
    PyVal.str_add BASE (PyVal.or p (JStr "")) = Ok (url job) /\
    job = mkJob "Amazon" ("Amazon:" +:+ amazon_stable id jid (url job))
                (title job) (url job) loc None.
Proof.
  unfold amazon_job. intros H.
  rbind_inv H. rbind_inv H. rbind_inv H.
  destruct (negb (Py.truthy v0) || negb (PyVal.truthy (PyVal.or v1 (JStr "")))) eqn:E;
    [discriminate|].
  rbind_inv H. rbind_inv H. rbind_inv H. rbind_inv H.
  injection H as <-. simpl.
  apply orb_false_iff in E as [E1 _]. apply negb_false_iff in E1.
  exists v, v1, v3, v4, v5. repeat split; assumption.
Qed.

Lemma parse_job_detail_inv W html url job :
  _parse_job_detail W html url = Ok (Some job) ->
  exists p,
    urlparse W url = Some p /\
    Py.truthy (title job) = true /\
    job = mkJob COMPANY
            (COMPANY +:+ ":" +:+
               dassault_stable
                 (option_map Py.strip (REFID_RE_search W (page_text (html_parse W html))))
                 (NUMERIC_ID_RE_search W (path p)) url)
            (title job) url
            (_normalize_ds_location
               (Py.or_empty (option_map Py.strip
                  (LOCATION_RE_search W (page_text (html_parse W html))))))
            None.
Proof.
  unfold _parse_job_detail.
  set (t := Py.strip _).
  destruct (Py.truthy t) eqn:Et; simpl negb; cbv iota; [|discriminate].
  destruct (urlparse W url) as [p|]; [|discriminate].
  intros [= <-]. exists p. simpl. repeat split; assumption.
Qed.

Lemma mathworks_entries_app es acc :
  mathworks_entries es acc = acc ++ mathworks_entries es [].
Proof.
  revert acc. induction es as [|e es IH]; intros acc; simpl.
  - now rewrite app_nil_r.
  - destruct (negb _ || negb _); [apply IH|].
    rewrite IH, (IH [_]), app_assoc. reflexivity.
Qed.

Lemma mathworks_entries_inv es job :
  In job (mathworks_entries es []) ->
  exists e,
    In e es /\
    Py.truthy (title job) = true /\ Py.truthy (url job) = true /\
    job = mkJob "MathWorks"
            ("MathWorks:" +:+ url_hash16 (Py.or_empty (entry_get e "link")))
            (Py.strip (Py.or_empty (entry_get e "title")))
            (Py.or_empty (entry_get e "link"))
            (extract_location_from_entry e) None.
Proof.
  induction es as [|e es IH]; simpl; [contradiction|].
  destruct (negb (Py.truthy (Py.strip (Py.or_empty (entry_get e "title"))))
            || negb (Py.truthy (Py.or_empty (entry_get e "link")))) eqn:E.
  - intros H. destruct (IH H) as (e' & He & Hj). exists e'. split; [now right | exact Hj].
  - rewrite mathworks_entries_app. simpl. intros [<- | H].
    + apply orb_false_iff in E as [E1 E2].
      apply negb_false_iff in E1, E2.
      exists e. simpl. repeat split; auto.
    + destruct (IH H) as (e' & He & Hj). exists e'. split; [now right | exact Hj].
Qed.

(** C6: each connector takes the first non-empty identifier among its
    preferred upstream identifiers, in order, and otherwise the first 16
    hexadecimal characters of the SHA-256 digest of the URL; the job_id is
    the company, a colon and that stable id; without a preferred id it is a
    function of company and URL alone. *)
Theorem identity_resolution (W : world) :
  (forall j job id jid,
     amazon_job W j = Ok (Some job) ->
     PyVal.get j "id" = Ok (json_of_id id) ->
     PyVal.get j "job_id" = Ok (json_of_id jid) ->
     company job = "Amazon" /\
     job_id job = Spec.resolve_id (company job) [id; jid] (url job)) /\
  (forall html u job,
     _parse_job_detail W html u = Ok (Some job) ->
     exists p,
       urlparse W u = Some p /\ company job = COMPANY /\ url job = u /\
       job_id job =
         Spec.resolve_id (company job)
           [option_map Py.strip (REFID_RE_search W (page_text (html_parse W html)));
            NUMERIC_ID_RE_search W (path p)] u) /\
  (forall es job,
     In job (mathworks_entries es []) ->
     company job = "MathWorks" /\
     job_id job = Spec.resolve_id (company job) [] (url job)) /\
  (forall company ids u s,
     Spec.first_non_empty ids = Some s ->
     Spec.resolve_id company ids u = company +:+ ":" +:+ s /\ s <> "" /\
     exists before after,
       ids = before ++ Some s :: after /\
       Forall (fun o => o = None \/ o = Some "") before) /\
  (forall company ids u,
     Forall (fun o => o = None \/ o = Some "") ids ->
     Spec.resolve_id company ids u
     = company +:+ ":" +:+ Py.take 16 (Sha256.hexdigest u)) /\
  (forall u, String.length (url_hash16 u) = 16%nat /\
             all_chars is_hex_digit (url_hash16 u) = true).
Proof.
  split; [|split; [|split; [|split; [|split]]]].
  - intros j job id jid Hj Hid Hjid.
    apply amazon_job_inv in Hj as (t & p & id' & jid' & loc & _ & _ & Hid' & Hjid' & _ & _ & _ & _ & ->).
    rewrite Hid in Hid'. rewrite Hjid in Hjid'.
    injection Hid' as <-. injection Hjid' as <-.
    simpl. split; [reflexivity|].
    unfold Spec.resolve_id. now rewrite amazon_stable_spec.
  - intros html u job Hj.
    apply parse_job_detail_inv in Hj as (p & Hp & _ & ->).
    exists p. simpl. repeat split; [exact Hp|].
    unfold Spec.resolve_id. now rewrite dassault_stable_spec.
  - intros es job Hj.
    apply mathworks_entries_inv in Hj as (e & _ & _ & _ & ->).
    simpl. split; reflexivity.
  - intros c ids u s Hs. unfold Spec.resolve_id, Spec.stable_id. rewrite Hs.
    split; [reflexivity|]. now apply first_non_empty_found.
  - intros c ids u Hids. apply first_non_empty_none in Hids.
    unfold Spec.resolve_id, Spec.stable_id. rewrite Hids. reflexivity.
  - apply url_hash16_shape.
Qed.

Lemma identity_resolution_witness :
  Spec.resolve_id "MathWorks" [None; Some ""] "https://x/y"
  = "MathWorks" +:+ ":" +:+ Py.take 16 (Sha256.hexdigest "https://x/y").
Proof.
  destruct (identity_resolution Demo.silent) as (_ & _ & _ & _ & H & _).
  apply H. constructor; [now left|]. constructor; [now right|]. constructor.
Defined.

(** ** The accumulation map *)

Lemma mem_string_In s l : mem_string s l = true <-> In s l.
Proof.
  unfold mem_string. rewrite existsb_exists. split.
  - intros (x & Hx & E). apply String.eqb_eq in E. now subst.
  - intros H. exists s. split; [exact H | apply String.eqb_refl].
Qed.

(** Assigning to a key keeps the keys when the key is there, and appends
    it when it is new. *)
Lemma dict_set_keys {V} k (v : V) d :
  List.map fst (dict_set k v d)
  = if mem_string k (List.map fst d) then List.map fst d else List.map fst d ++ [k].
Proof.
  induction d as [|[k' v'] d IH]; simpl; [reflexivity|].
  rewrite (String.eqb_sym k k').
  destruct (String.eqb k' k) eqn:E; simpl.
  - apply String.eqb_eq in E. now subst.
  - rewrite IH. destruct (mem_string k (List.map fst d)); reflexivity.
Qed.

Lemma dict_set_length {V} k (v : V) d :
  List.length (dict_set k v d)
  = if mem_string k (List.map fst d) then List.length d else S (List.length d).
Proof.
  pose proof (f_equal (@List.length _) (dict_set_keys k v d)) as H.
  rewrite length_map in H. rewrite H.
  destruct (mem_string k (List.map fst d)); rewrite ?length_app, length_map; simpl; lia.
Qed.

Lemma dict_set_In {V} k (v : V) d kv :
  In kv (dict_set k v d) -> kv = (k, v) \/ In kv d.
Proof.
  induction d as [|[k' v'] d IH]; simpl.
  - intros [<-|[]]. now left.
  - destruct (String.eqb k' k); simpl.
    + intros [<-|H]; auto.
    + intros [<-|H]; auto. destruct (IH H); auto.
Qed.


Lemma dict_inv_nil P : dict_inv P [].
Proof. split; constructor. Qed.

Lemma dict_inv_set P job d :
  dict_inv P d -> P job -> dict_inv P (dict_set (job_id job) job d).
Proof.
  intros [Hnd Hall] Hj. split.
  - rewrite dict_set_keys.
    destruct (mem_string (job_id job) (List.map fst d)) eqn:E; [exact Hnd|].
    apply NoDup_app. split; [exact Hnd|]. split; [|apply NoDup_singleton].
    intros x Hx Hx'. apply list_elem_of_In in Hx, Hx'.
    destruct Hx' as [<-|[]].
    apply mem_string_In in Hx. congruence.
  - apply List.Forall_forall. intros kv Hkv.
    apply dict_set_In in Hkv as [->|Hkv]; [now split|].
    rewrite List.Forall_forall in Hall. now apply Hall.
Qed.

(** The jobs a connector returns from its map: distinct job_ids, each job
    with the property the map maintains. *)
Lemma dict_inv_values P d :
  dict_inv P d -> NoDup (List.map job_id (dict_values d)) /\ Forall P (dict_values d).
Proof.
  intros [Hnd Hall]. unfold dict_values. split.
  - replace (List.map job_id (List.map snd d)) with (List.map fst d); [exact Hnd|].
    clear Hnd. induction Hall as [|kv d [Hk _] _ IH]; simpl; [reflexivity|].
    now rewrite Hk, IH.
  - clear Hnd. induction Hall as [|kv d [_ Hp] _ IH]; simpl; constructor; auto.
Qed.

(** ** Jobs built by the connectors *)

Lemma str_int_truthy z : Py.truthy (PyVal.str_int z) = true.
Proof.
  unfold PyVal.str_int. destruct (Z.to_int z) as [d|d]; [|reflexivity].
  destruct d; reflexivity.
Qed.

Lemma str_truthy v : PyVal.truthy v = true -> Py.truthy (PyVal.str v) = true.
Proof.
  destruct v as [|b|z|s|l|d]; simpl; try discriminate; auto.
  - destruct b; [reflexivity | discriminate].
  - intros _. apply str_int_truthy.
Qed.

Lemma amazon_stable_truthy id jid u : Py.truthy (amazon_stable id jid u) = true.
Proof.
  unfold amazon_stable. apply str_truthy. unfold PyVal.or.
  destruct (PyVal.truthy id) eqn:E1; [exact E1|].
  destruct (PyVal.truthy jid) eqn:E2; [exact E2|].
  apply url_hash16_truthy.
Qed.

Lemma dassault_stable_truthy r n u : Py.truthy (dassault_stable r n u) = true.
Proof.
  unfold dassault_stable, opt_or.
  destruct r as [s|]; [destruct (Py.truthy s) eqn:E; [exact E|]|];
    (destruct n as [t|]; [destruct (Py.truthy t) eqn:E'; [exact E'|]|]);
    apply url_hash16_truthy.
Qed.

Lemma location_ok_normalize c s ci : location_ok (normalize_location c s ci).
Proof.
  destruct (normalize_location c s ci) as [k|] eqn:E; simpl; [|exact I].
  now exists c, s, ci.
Qed.

Lemma normalize_location_json_ok c s ci loc :
  normalize_location_json c s ci = Ok loc -> location_ok loc.
Proof.
  unfold normalize_location_json. intros H.
  rbind_inv H. rbind_inv H. rbind_inv H. injection H as <-.
  apply location_ok_normalize.
Qed.

Lemma extract_amazon_location_ok W j loc :
  _extract_amazon_location W j = Ok loc -> location_ok loc.
Proof.
  unfold _extract_amazon_location. intros H. rbind_inv H.
  assert (Hfb : forall loc,
    (country <~ PyVal.get j "country_code";;
     state <~ PyVal.get j "state";;
     city <~ PyVal.get j "city";; normalize_location_json country state city) = Ok loc ->
    location_ok loc).
  { clear. intros loc H. rbind_inv H. rbind_inv H. rbind_inv H.
    now apply normalize_location_json_ok in H. }
  destruct v as [| | | |[|first l]|]; try (now apply Hfb).
  set (first' := match first with JStr s => _ | _ => first end) in H.
  destruct first'; try (now apply Hfb).
  do 6 rbind_inv H. now apply normalize_location_json_ok in H.
Qed.

Lemma amazon_job_ok W j job : amazon_job W j = Ok (Some job) -> job_ok "Amazon" job.
Proof.
  intros H.
  apply amazon_job_inv in H
    as (t & p & id & jid & loc & _ & _ & _ & _ & Hloc & _ & _ & _ & ->).
  split; [reflexivity|]. split.
  - exists (amazon_stable id jid (url job)). split; [|reflexivity].
    apply truthy_true, amazon_stable_truthy.
  - simpl. now apply extract_amazon_location_ok in Hloc.
Qed.

Lemma normalize_ds_location_ok loc_raw : location_ok (_normalize_ds_location loc_raw).
Proof.
  unfold _normalize_ds_location.
  destruct (negb (Py.truthy loc_raw)); [exact I|].
  destruct (stripped_parts _) as [|c parts]; [exact I|].
  destruct (mem_string _ _); [apply location_ok_normalize|].
  destruct (3 <=? _)%nat; apply location_ok_normalize.
Qed.

Lemma parse_job_detail_ok W html u job :
  _parse_job_detail W html u = Ok (Some job) -> job_ok COMPANY job.
Proof.
  intros H. apply parse_job_detail_inv in H as (p & _ & _ & ->).
  split; [reflexivity|]. split.
  - eexists. split; [|reflexivity]. apply truthy_true, dassault_stable_truthy.
  - simpl. apply normalize_ds_location_ok.
Qed.

Lemma amazon_item_inv W j d d' :
  amazon_item W j d = Ok d' ->
  (amazon_job W j = Ok None /\ d' = d) \/
  (exists job, amazon_job W j = Ok (Some job) /\ d' = dict_set (job_id job) job d).
Proof.
  unfold amazon_item. intros H. rbind_inv H.
  destruct v as [job|]; injection H as <-; eauto.
Qed.

Lemma amazon_items_inv_dict W items :
  forall d d', amazon_items W items d = Ok d' ->
    dict_inv (job_ok "Amazon") d -> dict_inv (job_ok "Amazon") d'.
Proof.
  induction items as [|j items IH]; simpl; intros d d' H Hd.
  - now injection H as <-.
  - rbind_inv H. apply (IH _ _ H).
    apply amazon_item_inv in Hv as [[_ ->] | (job & Hj & ->)]; [exact Hd|].
    apply dict_inv_set; [exact Hd | now apply amazon_job_ok in Hj].
Qed.

(** What one page does to the state, whenever it does not raise. *)
Lemma amazon_page_inv W data st next :
  amazon_page W data st = Ok next ->
  exists jobs,
    PyVal.get_default data "jobs" (JList []) = Ok jobs /\
    ((PyVal.truthy jobs = false /\ next = Break st) \/
     (PyVal.truthy jobs = true /\
      exists items d' n hits,
        PyVal.iter jobs = Ok items /\
        amazon_items W items (all_jobs st) = Ok d' /\
        let c' := if (dict_len d' =? dict_len (all_jobs st))%Z
                  then (consecutive_no_new st + 1)%Z else 0%Z in
        ((3 <=? c')%Z = true /\
         next = Break (AmazonState d' (offset st) (pages_fetched st + 1) c')) \/
        ((3 <=? c')%Z = false /\
         PyVal.len jobs = Ok n /\ PyVal.get data "hits" = Ok hits /\
         let st' := AmazonState d' (offset st + n) (pages_fetched st + 1) c' in
         next = match PyVal.as_int hits with
                | Some h => if (h <=? offset st + n)%Z then Break st' else Continue st'
                | None => Continue st'
                end))).
Proof.
  unfold amazon_page. intros H. rbind_inv H. rename v into jobs.
  exists jobs. split; [exact Hv|].
  destruct (PyVal.truthy jobs) eqn:Ej; simpl negb in H; cbv iota in H.
  2:{ injection H as <-. left. now split. }
  right. split; [reflexivity|].
  rbind_inv H. rename v into items. rbind_inv H. rename v into d'.
  set (c' := if (dict_len d' =? dict_len (all_jobs st))%Z then _ else _) in *.
  destruct (3 <=? c')%Z eqn:Ec.
  - injection H as <-. exists items, d', 0%Z, JNull.
    split; [exact Hv0|]. split; [exact Hv1|]. left. now split.
  - rbind_inv H. rbind_inv H.
    exists items, d', v, v0. split; [exact Hv0|]. split; [exact Hv1|]. right.
    split; [exact Ec|]. split; [exact Hv2|]. split; [exact Hv3|].
    destruct (PyVal.as_int v0) as [h|]; [destruct (h <=? _)%Z|]; now injection H as <-.
Qed.

Lemma amazon_page_dict W data st next :
  amazon_page W data st = Ok next ->
  dict_inv (job_ok "Amazon") (all_jobs st) ->
  dict_inv (job_ok "Amazon") (all_jobs (flow_state next)).
Proof.
  intros H Hd. apply amazon_page_inv in H as (jobs & _ & [[_ ->] | [_ H]]); [exact Hd|].
  destruct H as (items & d' & n & hits & _ & Hitems & H).
  apply amazon_items_inv_dict in Hitems; [|exact Hd].
  destruct H as [[_ ->] | (_ & _ & _ & ->)]; [exact Hitems|].
  destruct (PyVal.as_int hits) as [h|]; [destruct (h <=? _)%Z|]; exact Hitems.
Qed.

(** ** Runs of the connectors *)

Lemma bind_Ok {A B} (m : M A) (k : A -> M B) log b log' :
  bind m k log = (Ok b, log') ->
  exists a l1, m log = (Ok a, l1) /\ k a l1 = (Ok b, log').
Proof.
  unfold bind. destruct (m log) as [[a|e|] l1]; try discriminate. eauto.
Qed.

Lemma try_except_Ok {A} (m : M A) log o log' :
  try_except m log = (Ok o, log') ->
  (exists a, m log = (Ok a, log') /\ o = Some a) \/
  (exists e, m log = (Raise e, log') /\ o = None).
Proof.
  unfold try_except. destruct (m log) as [[a|e|] l1]; intros [= <- <-]; eauto.
Qed.

Lemma amazon_loop_dict W bq cc sort rl mp fuel :
  forall st log st' log',
    amazon_loop W bq cc sort rl mp fuel st log = (Ok st', log') ->
    dict_inv (job_ok "Amazon") (all_jobs st) ->
    dict_inv (job_ok "Amazon") (all_jobs st').
Proof.
  induction fuel as [|fuel IH]; intros st log st' log' H Hd; [discriminate|].
  simpl in H. destruct (max_pages_reached mp st).
  - now injection H as <- _.
  - apply bind_Ok in H as (data & l1 & _ & H).
    apply bind_Ok in H as (next & l2 & Hp & H).
    unfold lift in Hp. injection Hp as Hp _.
    apply amazon_page_dict in Hp; [|exact Hd].
    destruct next as [s|s]; simpl in Hp.
    + now injection H as <- _.
    + now apply IH in H.
Qed.

Lemma scrape_amazon_jobs W bq cc sort rl mp fuel log jobs log' :
  scrape_amazon W bq cc sort rl mp fuel log = (Ok jobs, log') ->
  NoDup (List.map job_id jobs) /\ Forall (job_ok "Amazon") jobs.
Proof.
  unfold scrape_amazon. intros H. apply bind_Ok in H as (st & l1 & Hl & H).
  injection H as <- _. apply dict_inv_values.
  apply amazon_loop_dict in Hl; [exact Hl | apply dict_inv_nil].
Qed.

Lemma dassault_details_dict W urls :
  forall d log d' log',
    dassault_details W urls d log = (Ok d', log') ->
    dict_inv (job_ok COMPANY) d -> dict_inv (job_ok COMPANY) d'.
Proof.
  induction urls as [|u urls IH]; intros d log d' log' H Hd; simpl in H.
  - now injection H as <- _.
  - apply bind_Ok in H as (fetched & l1 & _ & H).
    destruct fetched as [html|]; [|now apply IH in H].
    apply bind_Ok in H as (job & l2 & Hp & H).
    unfold lift in Hp. injection Hp as Hp _.
    destruct job as [job|]; [|now apply IH in H].
    apply IH in H; [exact H|].
    apply dict_inv_set; [exact Hd | now apply parse_job_detail_ok in Hp].
Qed.

Lemma scrape_dassault_jobs W mj ms fuel log jobs log' :
  scrape_dassault W mj ms fuel log = (Ok jobs, log') ->
  NoDup (List.map job_id jobs) /\ Forall (job_ok COMPANY) jobs.
Proof.
  unfold scrape_dassault. intros H. apply bind_Ok in H as (urls & l1 & _ & H).
  apply bind_Ok in H as (d & l2 & Hd & H). injection H as <- _.
  apply dict_inv_values. apply dassault_details_dict in Hd; [exact Hd | apply dict_inv_nil].
Qed.

Lemma scrape_mathworks_Ok W log jobs log' :
  scrape_mathworks W log = (Ok jobs, log') ->
  exists body, jobs = mathworks_entries (feedparser_parse W body) [].
Proof.
  unfold scrape_mathworks. intros H.
  apply bind_Ok in H as (resp & l1 & _ & H).
  apply bind_Ok in H as (u & l2 & _ & H).
  injection H as <- _. now exists (text resp).
Qed.

(** The feed connector keeps one job per kept entry, in order. *)
Lemma mathworks_entries_urls es :
  List.map url (mathworks_entries es [])
  = List.map (fun e => Py.or_empty (entry_get e "link")) (List.filter entry_kept es).
Proof.
  induction es as [|e es IH]; simpl; [reflexivity|].
  unfold entry_kept at 1.
  destruct (Py.truthy (Py.strip (Py.or_empty (entry_get e "title")))),
           (Py.truthy (Py.or_empty (entry_get e "link"))); simpl; try exact IH.
  rewrite mathworks_entries_app. simpl. now rewrite IH.
Qed.

Lemma job_ok_id co j : job_ok co j -> company j = co /\ well_formed_id j.
Proof. intros (H1 & H2 & _). now split. Qed.

Lemma Forall_job_ok_id co jobs :
  Forall (job_ok co) jobs -> Forall (fun j => company j = co /\ well_formed_id j) jobs.
Proof. apply List.Forall_impl. intros j. apply job_ok_id. Qed.


(** C2, as stated, at a feed that lists one posting twice: the feed
    connector returns two jobs with one job_id. *)
Lemma mathworks_duplicate_job_ids :
  List.map job_id
    (match fst (run (scrape_mathworks Demo.repeating_feed)) with
     | Ok jobs => jobs
     | _ => []
     end)
  = ["MathWorks:57b0713d86a693f0"; "MathWorks:57b0713d86a693f0"] /\
  ~ NoDup ["MathWorks:57b0713d86a693f0"; "MathWorks:57b0713d86a693f0"].
Proof.
  split; [vm_compute; reflexivity|].
  intros H. apply NoDup_cons in H as [H _]. apply H. now left.
Qed.

(** C2 (amended): the paginated-API and the sitemap connector return jobs
    with pairwise distinct job_ids; the feed connector returns one job per
    kept entry, in feed order, without merging entries that share a link;
    for all three every job_id is Company:stable-id with the company's
    display name before the colon and a non-empty stable id. *)
Theorem scrape_job_ids (W : world) :
  (forall bq cc sort rl mp fuel log jobs log',
     scrape_amazon W bq cc sort rl mp fuel log = (Ok jobs, log') ->
     NoDup (List.map job_id jobs) /\
     Forall (fun j => company j = "Amazon" /\ well_formed_id j) jobs) /\
  (forall mj ms fuel log jobs log',
     scrape_dassault W mj ms fuel log = (Ok jobs, log') ->
     NoDup (List.map job_id jobs) /\
     Forall (fun j => company j = COMPANY /\ well_formed_id j) jobs) /\
  (forall log jobs log',
     scrape_mathworks W log = (Ok jobs, log') ->
     Forall (fun j => company j = "MathWorks" /\ well_formed_id j /\
                      job_id j = "MathWorks:" +:+ url_hash16 (url j)) jobs /\
     exists body,
       List.map url jobs
       = List.map (fun e => Py.or_empty (entry_get e "link"))
                  (List.filter entry_kept (feedparser_parse W body))).
Proof.
  split; [|split].
  - intros bq cc sort rl mp fuel log jobs log' H.
    apply scrape_amazon_jobs in H as [H1 H2]. split; [exact H1|].
    now apply Forall_job_ok_id.
  - intros mj ms fuel log jobs log' H.
    apply scrape_dassault_jobs in H as [H1 H2]. split; [exact H1|].
    now apply Forall_job_ok_id.
  - intros log jobs log' H. apply scrape_mathworks_Ok in H as (body & ->). split.
    + apply List.Forall_forall. intros j Hj.
      apply mathworks_entries_inv in Hj as (e & _ & _ & _ & ->). simpl.
      split; [reflexivity|]. split; [|reflexivity].
      eexists. split; [|reflexivity]. apply truthy_true, url_hash16_truthy.
    + exists body. apply mathworks_entries_urls.
Qed.

Lemma scrape_job_ids_witness :
  exists jobs log,
    run (scrape_dassault Demo.careers None None 5) = (Ok jobs, log) /\
    List.map job_id jobs = ["Dassault Systemes:546412"] /\
    NoDup (List.map job_id jobs).
Proof.
  destruct (run (scrape_dassault Demo.careers None None 5)) as [r log] eqn:E.
  assert (Hr : r = Ok [mkJob COMPANY "Dassault Systemes:546412" "Engineer"
                         "https://www.3ds.com/careers/jobs/engineer-546412"
                         (Some "FRANCE--Paris") None]).
  { change r with (fst (r, log)). rewrite <- E. vm_compute. reflexivity. }
  subst r. eexists _, log. split; [reflexivity|]. split; [reflexivity|].
  destruct (scrape_job_ids Demo.careers) as (_ & H & _).
  exact (proj1 (H None None 5%nat [] _ log E)).
Defined.

(** ** Locations *)








(** ** The sitemap crawl *)

Lemma get_log W u log :
  snd (_get W u log) = log ++ [Request u []] /\ fst (_get W u log) <> OutOfFuel.
Proof.
  unfold _get, bind, requests_get, lift, ret.
  destruct (send W log (Request u [])) as [st body|]; simpl;
    [unfold raise_for_status; destruct (_ && _); simpl|];
    (split; [reflexivity | intros E; discriminate E]).
Qed.

Lemma try_get_log W u log :
  exists o, try_except (_get W u) log = (Ok o, log ++ [Request u []]).
Proof.
  destruct (get_log W u log) as [Hl Hr]. unfold try_except.
  destruct (_get W u log) as [[a|e|] l]; simpl in *; subst l; eauto.
  now contradiction Hr.
Qed.

Lemma crawl_loc_visited W st loc : visited (crawl_loc W st loc) = visited st.
Proof.
  unfold crawl_loc.
  destruct (is_sitemap_loc loc); [destruct (bool_decide _); reflexivity|].
  destruct (_is_job_url W loc); [destruct (bool_decide _); reflexivity|reflexivity].
Qed.

Lemma crawl_locs_visited W locs :
  forall st, visited (List.fold_left (crawl_loc W) locs st) = visited st.
Proof.
  induction locs as [|l locs IH]; intros st; simpl; [reflexivity|].
  now rewrite IH, crawl_loc_visited.
Qed.

Lemma crawl_inv_size st log : crawl_inv st log -> size (visited st) = List.length log.
Proof.
  intros [Hnd ->]. rewrite size_list_to_set by exact Hnd.
  unfold urls_of. apply length_map.
Qed.

Lemma crawl_inv_fetch st log u tv ju sj :
  crawl_inv st log -> u ∉ visited st ->
  crawl_inv (CrawlState tv ({[ u ]} ∪ visited st) ju sj) (log ++ [Request u []]).
Proof.
  intros [Hnd Hv] Hu. unfold crawl_inv, urls_of in *. simpl.
  rewrite map_app. simpl. split.
  - apply NoDup_app. split; [exact Hnd|]. split; [|apply NoDup_singleton].
    intros x Hx Hx'. apply list_elem_of_singleton in Hx'. subst x.
    apply Hu. rewrite Hv. now apply elem_of_list_to_set.
  - rewrite list_to_set_snoc_L, Hv. apply (comm_L (∪)).
Qed.

(** Whatever the outcome, no URL is requested twice, a cap bounds the
    number of requests, and a state that comes back agrees with the log. *)
Lemma crawl_loop_inv W ms fuel :
  forall st log r log',
    crawl_loop W ms fuel st log = (r, log') ->
    crawl_inv st log ->
    NoDup (urls_of log') /\
    (forall m, ms = Some m ->
       (List.length log' <= Nat.max (List.length log) (Z.to_nat m))%nat) /\
    (forall st', r = Ok st' -> crawl_inv st' log').
Proof.
  induction fuel as [|fuel IH]; intros st log r log' H Hinv.
  - injection H as <- <-. split; [apply Hinv|]. split; [intros; lia | discriminate].
  - simpl in H. destruct (to_visit st) as [|u rest] eqn:Eq.
    { injection H as <- <-. split; [apply Hinv|]. split; [intros; lia|].
      now intros st' [= <-]. }
    destruct (cap_allows ms st) eqn:Ecap; simpl negb in H; cbv iota in H.
    2:{ injection H as <- <-. split; [apply Hinv|]. split; [intros; lia|].
        now intros st' [= <-]. }
    simpl in H. destruct (bool_decide (u ∈ visited st)) eqn:Ev.
    { apply IH in H; [exact H|]. exact Hinv. }
    apply bool_decide_eq_false in Ev.
    unfold bind in H. destruct (try_get_log W u log) as [o Ho]. rewrite Ho in H.
    set (st1 := CrawlState rest ({[ u ]} ∪ visited st) (job_urls st) (seen_jobs st)) in *.
    assert (Hinv1 : crawl_inv st1 (log ++ [Request u []]))
      by now apply crawl_inv_fetch.
    assert (Hlen : forall m, ms = Some m ->
              (List.length (log ++ [Request u []]) <= Z.to_nat m)%nat).
    { intros m ->. simpl in Ecap. apply Z.ltb_lt in Ecap.
      rewrite (crawl_inv_size _ _ Hinv) in Ecap. rewrite length_app. simpl. lia. }
    assert (Hdone : forall st2, crawl_inv st2 (log ++ [Request u []]) ->
              forall r log', crawl_loop W ms fuel st2 (log ++ [Request u []]) = (r, log') ->
              NoDup (urls_of log') /\
              (forall m, ms = Some m ->
                 (List.length log' <= Nat.max (List.length log) (Z.to_nat m))%nat) /\
              (forall st', r = Ok st' -> crawl_inv st' log')).
    { intros st2 Hinv2 r2 log2 H2. apply IH in H2 as (Ha & Hb & Hc); [|exact Hinv2].
      split; [exact Ha|]. split; [|exact Hc].
      intros m Hm. specialize (Hb m Hm). specialize (Hlen m Hm). lia. }
    destruct o as [xml_text|]; [|now apply (Hdone st1 Hinv1)].
    unfold lift in H. destruct (_iter_sitemap_locs W xml_text) as [locs|e|].
    + apply (Hdone _) in H; [exact H|].
      destruct Hinv1 as [Hn Hv]. split; [exact Hn|]. now rewrite crawl_locs_visited.
    + injection H as <- <-. split; [apply Hinv1|].
      split; [|discriminate]. intros m Hm. specialize (Hlen m Hm). lia.
    + injection H as <- <-. split; [apply Hinv1|].
      split; [|discriminate]. intros m Hm. specialize (Hlen m Hm). lia.
Qed.

Lemma crawl_inv_init : crawl_inv crawl_init [].
Proof. split; [constructor | reflexivity]. Qed.

Lemma collect_log W ms fuel log :
  snd (_collect_job_urls_from_sitemaps W ms fuel log) = snd (crawl_loop W ms fuel crawl_init log).
Proof.
  unfold _collect_job_urls_from_sitemaps, bind, ret.
  destruct (crawl_loop W ms fuel crawl_init log) as [[st|e|] l]; reflexivity.
Qed.

(** C9: in sitemap discovery no sitemap URL is requested twice, however
    many parents list it: a URL at the head of the queue that is in the
    visited set is dropped without a request; the cap bounds the number of
    sitemaps visited and requested. *)
Theorem sitemap_fetched_once (W : world) (max_sitemaps : option Z) (fuel : nat) :
  NoDup (urls_of (snd (run (_collect_job_urls_from_sitemaps W max_sitemaps fuel)))) /\
  (forall m, max_sitemaps = Some m ->
     (List.length (snd (run (_collect_job_urls_from_sitemaps W max_sitemaps fuel)))
      <= Z.to_nat m)%nat) /\
  (forall st log,
     run (crawl_loop W max_sitemaps fuel crawl_init) = (Ok st, log) ->
     visited st = list_to_set (urls_of log) /\
     size (visited st) = List.length log /\
     (forall m, max_sitemaps = Some m -> (Z.of_nat (size (visited st)) <= Z.max 0 m)%Z)) /\
  (forall st log u rest,
     to_visit st = u :: rest -> u ∈ visited st -> cap_allows max_sitemaps st = true ->
     crawl_loop W max_sitemaps (S fuel) st log
     = crawl_loop W max_sitemaps fuel
         (CrawlState rest (visited st) (job_urls st) (seen_jobs st)) log).
Proof.
  unfold run. rewrite collect_log.
  destruct (crawl_loop W max_sitemaps fuel crawl_init []) as [r log] eqn:E.
  destruct (crawl_loop_inv _ _ _ _ _ _ _ E crawl_inv_init) as (Hnd & Hcap & Hst).
  split; [exact Hnd|]. split; [|split].
  - intros m Hm. specialize (Hcap m Hm). simpl in *. lia.
  - intros st log' [= -> <-]. specialize (Hst st eq_refl).
    split; [apply Hst|]. split; [now apply crawl_inv_size|].
    intros m Hm. rewrite (crawl_inv_size _ _ Hst). specialize (Hcap m Hm).
    simpl in Hcap. lia.
  - intros st log' u rest Hq Hu Hc. simpl. rewrite Hq, Hc. simpl.
    now rewrite bool_decide_eq_true_2.
Qed.

Lemma sitemap_fetched_once_witness :
  (List.length (snd (run (_collect_job_urls_from_sitemaps Demo.diamond (Some 2%Z) 10)))
   <= 2)%nat /\
  urls_of (snd (run (_collect_job_urls_from_sitemaps Demo.diamond None 10)))
  = [SITEMAP_INDEX; Demo.sm "a"; Demo.sm "b"; Demo.sm "c"].
Proof.
  split.
  - exact (proj1 (proj2 (sitemap_fetched_once Demo.diamond (Some 2%Z) 10)) 2%Z eq_refl).
  - vm_compute. reflexivity.
Defined.

Example careers_one_job_url :
  fst (run (_collect_job_urls_from_sitemaps Demo.careers None 5))
  = Ok ["https://www.3ds.com/careers/jobs/engineer-546412"].
Proof. vm_compute. reflexivity. Qed.

(** ** Code without loops comes to an end *)

Lemma finished_Ok {A} (a : A) : finished (Ok a).
Proof. intros E; discriminate E. Qed.

Lemma finished_Raise {A} e : finished (@Raise A e).
Proof. intros E; discriminate E. Qed.

Lemma finished_rbind {A B} (m : result A) (k : A -> result B) :
  finished m -> (forall a, finished (k a)) -> finished (rbind m k).
Proof.
  destruct m as [a|e|]; simpl; intros Hm Hk.
  - apply Hk.
  - apply finished_Raise.
  - now contradiction Hm.
Qed.

Lemma finished_get_default v k d : finished (PyVal.get_default v k d).
Proof. destruct v; (apply finished_Ok || apply finished_Raise). Qed.

Lemma finished_get v k : finished (PyVal.get v k).
Proof. apply finished_get_default. Qed.

Lemma finished_strip v : finished (PyVal.strip v).
Proof. destruct v; (apply finished_Ok || apply finished_Raise). Qed.

Lemma finished_str_add p v : finished (PyVal.str_add p v).
Proof. destruct v; (apply finished_Ok || apply finished_Raise). Qed.

Lemma finished_iter v : finished (PyVal.iter v).
Proof. destruct v; (apply finished_Ok || apply finished_Raise). Qed.

Lemma finished_len v : finished (PyVal.len v).
Proof. destruct v; (apply finished_Ok || apply finished_Raise). Qed.

Ltac finish :=
  repeat first
    [ assumption | apply finished_Ok | apply finished_Raise
    | apply finished_get | apply finished_get_default | apply finished_strip
    | apply finished_str_add | apply finished_iter | apply finished_len
    | apply finished_rbind; [|intros ?] ].

Lemma finished_normalize_location_json c s ci : finished (normalize_location_json c s ci).
Proof. unfold normalize_location_json, or_empty_strip. finish. Qed.

Lemma finished_extract_amazon_location W j : finished (_extract_amazon_location W j).
Proof.
  unfold _extract_amazon_location. apply finished_rbind; [finish|]. intros locs.
  assert (Hfb : finished
    (country <~ PyVal.get j "country_code";;
     state <~ PyVal.get j "state";;
     city <~ PyVal.get j "city";; normalize_location_json country state city)).
  { finish. }
  destruct locs as [| | | |[|first l]|]; try exact Hfb.
  set (first' := match first with JStr s => _ | _ => first end).
  destruct first'; try exact Hfb.
  finish.
Qed.

Lemma finished_amazon_job W j : finished (amazon_job W j).
Proof.
  pose proof (finished_extract_amazon_location W j) as Hloc.
  unfold amazon_job. finish. destruct (negb _ || negb _); finish.
Qed.

Lemma finished_amazon_item W j d : finished (amazon_item W j d).
Proof.
  unfold amazon_item. apply finished_rbind; [apply finished_amazon_job|].
  intros [job|]; finish.
Qed.

Lemma finished_amazon_items W items : forall d, finished (amazon_items W items d).
Proof.
  induction items as [|j items IH]; intros d; simpl; [finish|].
  apply finished_rbind; [apply finished_amazon_item | exact IH].
Qed.

Lemma finished_amazon_page W data st : finished (amazon_page W data st).
Proof.
  unfold amazon_page. apply finished_rbind; [finish|]. intros jobs.
  destruct (negb _); [finish|].
  apply finished_rbind; [finish|]. intros items.
  apply finished_rbind; [apply finished_amazon_items|]. intros d'.
  destruct (3 <=? _)%Z; [finish|].
  finish. destruct (PyVal.as_int _) as [h|]; [destruct (h <=? _)%Z|]; finish.
Qed.

Lemma finished_parse_job_detail W html u : finished (_parse_job_detail W html u).
Proof.
  unfold _parse_job_detail.
  destruct (negb _); [finish|]. destruct (urlparse W u); finish.
Qed.

(** ** The paginated traversal *)

Lemma request_log W params log :
  snd (_request W params log) = log ++ [Request SEARCH_JSON params] /\
  finished (fst (_request W params log)).
Proof.
  unfold _request, bind, requests_get, lift.
  destruct (send W log _) as [st body|]; simpl;
    [|split; [reflexivity | apply finished_Raise]].
  unfold raise_for_status. destruct (_ && _); simpl;
    [split; [reflexivity | apply finished_Raise]|].
  unfold response_json. simpl.
  destruct (json_loads W body); split; try reflexivity;
    (apply finished_Ok || apply finished_Raise).
Qed.








Lemma same_page_forever_same_item : same_item_forever Demo.same_page_forever Demo.posting.
Proof.
  intros params log data log' H.
  unfold _request, bind, requests_get, lift in H. simpl in H.
  injection H as <- _. reflexivity.
Qed.











Example same_page_forever_run :
  fst (run (scrape_amazon Demo.same_page_forever "" "USA" "recent" 50 None 4))
  = Ok [mkJob "Amazon" "Amazon:1" "Engineer" "https://www.amazon.jobs/en/jobs/1"
          (Some "US-WA-Seattle") None] /\
  List.length (snd (run (scrape_amazon Demo.same_page_forever "" "USA" "recent" 50 None 4)))
  = 4%nat /\
  fst (run (scrape_amazon Demo.same_page_forever "" "USA" "recent" 50 None 3)) = OutOfFuel.
Proof. repeat split; vm_compute; reflexivity. Qed.

(** ** Failures *)

(** When a page request raises: no reply, an error status, or a body that
    is not JSON. *)
Lemma request_outcome W params log :
  _request W params log =
  (match send W log (Request SEARCH_JSON params) with
   | NoReply => Raise ConnectionError
   | Reply st body =>
       if ((400 <=? st) && (st <? 600))%Z then Raise HTTPError
       else match json_loads W body with
            | Some data => Ok data
            | None => Raise JSONDecodeError
            end
   end, log ++ [Request SEARCH_JSON params]).
Proof.
  unfold _request, bind, requests_get, lift, raise_for_status, response_json.
  destruct (send W log _) as [st body|]; simpl; [|reflexivity].
  destruct (_ && _); simpl; [reflexivity|].
  destruct (json_loads W body); reflexivity.
Qed.

Lemma scrape_mathworks_outcome W log :
  scrape_mathworks W log =
  (match send W log (Request RSS_URL []) with
   | NoReply => Raise ConnectionError
   | Reply st body =>
       if ((400 <=? st) && (st <? 600))%Z then Raise HTTPError
       else Ok (mathworks_entries (feedparser_parse W body) [])
   end, log ++ [Request RSS_URL []]).
Proof.
  unfold scrape_mathworks, bind, requests_get, lift, raise_for_status, ret.
  destruct (send W log _) as [st body|]; simpl; [|reflexivity].
  destruct (_ && _); reflexivity.
Qed.

Lemma amazon_loop_raises W bq cc sort rl mp fuel st log e log' :
  max_pages_reached mp st = false ->
  _request W (amazon_params bq cc sort rl (offset st)) log = (Raise e, log') ->
  amazon_loop W bq cc sort rl mp (S fuel) st log = (Raise e, log').
Proof. intros Hmp Hr. simpl. rewrite Hmp. unfold bind. now rewrite Hr. Qed.

Lemma is_job_url_parses W u : _is_job_url W u = true -> urlparse W u <> None.
Proof. unfold _is_job_url. destruct (urlparse W u); [discriminate | discriminate]. Qed.

Lemma crawl_loc_job_urls W st loc :
  Forall (fun u => _is_job_url W u = true) (job_urls st) ->
  Forall (fun u => _is_job_url W u = true) (job_urls (crawl_loc W st loc)).
Proof.
  intros H. unfold crawl_loc.
  destruct (is_sitemap_loc loc); [destruct (bool_decide _); exact H|].
  destruct (_is_job_url W loc) eqn:E; [|exact H].
  destruct (bool_decide _); [exact H|]. simpl.
  apply List.Forall_app. split; [exact H | now constructor].
Qed.

Lemma crawl_locs_job_urls W locs :
  forall st,
    Forall (fun u => _is_job_url W u = true) (job_urls st) ->
    Forall (fun u => _is_job_url W u = true) (job_urls (List.fold_left (crawl_loc W) locs st)).
Proof.
  induction locs as [|l locs IH]; intros st H; simpl; [exact H|].
  apply IH. now apply crawl_loc_job_urls.
Qed.

(** The discovery raises nothing but the parse error of a sitemap body,
    whatever the network does, and what it collects are job URLs. *)
Lemma crawl_loop_outcome W ms fuel :
  forall st log,
    Forall (fun u => _is_job_url W u = true) (job_urls st) ->
    (forall e, fst (crawl_loop W ms fuel st log) = Raise e -> e = ParseError) /\
    (forall st', fst (crawl_loop W ms fuel st log) = Ok st' ->
       Forall (fun u => _is_job_url W u = true) (job_urls st')).
Proof.
  induction fuel as [|fuel IH]; intros st log Hj.
  - split; [intros e E; discriminate E | intros st' E; discriminate E].
  - simpl. destruct (to_visit st) as [|u rest].
    { split; [intros e E; discriminate E | now intros st' [= <-]]. }
    destruct (cap_allows ms st); simpl negb; cbv iota.
    2:{ split; [intros e E; discriminate E | now intros st' [= <-]]. }
    simpl. destruct (bool_decide (u ∈ visited st)); [now apply IH|].
    unfold bind. destruct (try_get_log W u log) as [o ->].
    destruct o as [xml_text|]; [|now apply IH].
    unfold lift, _iter_sitemap_locs.
    destruct (xml_fromstring W xml_text) as [els|] eqn:Ex.
    + apply IH. now apply crawl_locs_job_urls.
    + split; [now intros e [= <-] | intros st' E; discriminate E].
Qed.

Lemma Forall_firstn {A} (P : A -> Prop) n l : Forall P l -> Forall P (List.firstn n l).
Proof.
  intros H. revert n. induction H as [|x l Hx _ IH]; intros [|n]; simpl; constructor; auto.
Qed.

Lemma Forall_slice_to {A} (P : A -> Prop) n l : Forall P l -> Forall P (slice_to n l).
Proof.
  intros H. unfold slice_to. destruct n as [n|]; [|exact H].
  destruct (0 <=? n)%Z; now apply Forall_firstn.
Qed.

Lemma dassault_details_no_raise W urls :
  Forall (fun u => _is_job_url W u = true) urls ->
  forall jobs log, exists jobs' log', dassault_details W urls jobs log = (Ok jobs', log').
Proof.
  induction 1 as [|u urls Hu _ IH]; intros jobs log; simpl; [unfold ret; eauto|].
  unfold bind. destruct (try_get_log W u log) as [o ->].
  destruct o as [html|]; [|apply IH].
  unfold lift. apply is_job_url_parses in Hu.
  unfold _parse_job_detail.
  destruct (negb _); [apply IH|].
  destruct (urlparse W u) as [p|]; [|now contradiction Hu].
  apply IH.
Qed.

Lemma scrape_dassault_raises W mj ms fuel log e :
  fst (scrape_dassault W mj ms fuel log) = Raise e -> e = ParseError.
Proof.
  unfold scrape_dassault, _collect_job_urls_from_sitemaps, bind.
  destruct (crawl_loop_outcome W ms fuel crawl_init log) as [Hr Hj];
    [constructor|].
  destruct (crawl_loop W ms fuel crawl_init log) as [[st|e'|] l1]; simpl in *.
  - specialize (Hj st eq_refl).
    destruct (dassault_details_no_raise W (slice_to mj (job_urls st))
                (Forall_slice_to _ _ _ Hj) [] l1) as (jobs' & log' & ->).
    simpl. intros E; discriminate E.
  - intros [= <-]. now apply Hr.
  - intros E; discriminate E.
Qed.

(** What [_get] raises is a failure of its request. *)
Lemma get_raises W u log e log' :
  _get W u log = (Raise e, log') -> request_failure e = true.
Proof.
  unfold _get, bind, requests_get, lift, raise_for_status, ret.
  destruct (send W log (Request u [])) as [st body|]; simpl;
    [destruct (_ && _); simpl|]; intros [= <- _]; reflexivity.
Qed.

(** C1, as stated, at a search API that answers its first page and is
    unreachable at the second: the failure of the second request reaches
    the caller and the job of the first page is lost, although a run capped
    at one page returns it. *)
Lemma amazon_later_failure_propagates :
  fst (run (scrape_amazon Demo.one_page_then_down "" "USA" "recent" 50 (Some 1%Z) 5))
  = Ok [mkJob "Amazon" "Amazon:1" "Engineer" "https://www.amazon.jobs/en/jobs/1"
          (Some "US-WA-Seattle") None] /\
  fst (run (scrape_amazon Demo.one_page_then_down "" "USA" "recent" 50 None 5))
  = Raise ConnectionError /\
  List.length (snd (run (scrape_amazon Demo.one_page_then_down "" "USA" "recent" 50 None 5)))
  = 2%nat.
Proof. repeat split; vm_compute; reflexivity. Qed.

(** C1 (amended): the feed connector raises exactly when its one request
    fails; the paginated connector passes the failure of any page request,
    the first or a later one, on to its caller; the sitemap connector
    catches the failure of every sitemap request, the first included, and
    of every detail-page request, drops that unit and goes on with the
    rest, so that no failure of a request ever reaches its caller; a
    sitemap that arrives but is not well-formed XML is not caught. *)
Theorem scrape_failures (W : world) :
  (forall log,
     scrape_mathworks W log =
     (match send W log (Request RSS_URL []) with
      | NoReply => Raise ConnectionError
      | Reply st body =>
          if ((400 <=? st) && (st <? 600))%Z then Raise HTTPError
          else Ok (mathworks_entries (feedparser_parse W body) [])
      end, log ++ [Request RSS_URL []])) /\
  (forall bq cc sort rl mp fuel st log e log',
     max_pages_reached mp st = false ->
     _request W (amazon_params bq cc sort rl (offset st)) log = (Raise e, log') ->
     amazon_loop W bq cc sort rl mp (S fuel) st log = (Raise e, log')) /\
  (forall bq cc sort rl mp fuel log e log',
     amazon_loop W bq cc sort rl mp fuel amazon_init log = (Raise e, log') ->
     scrape_amazon W bq cc sort rl mp fuel log = (Raise e, log')) /\
  (forall u log e log',
     _get W u log = (Raise e, log') -> request_failure e = true) /\
  (forall mj ms fuel log e,
     fst (scrape_dassault W mj ms fuel log) = Raise e -> request_failure e = false) /\
  (forall ms fuel st u rest log e log',
     to_visit st = u :: rest -> cap_allows ms st = true -> u ∉ visited st ->
     _get W u log = (Raise e, log') ->
     crawl_loop W ms (S fuel) st log
     = crawl_loop W ms fuel
         (CrawlState rest ({[ u ]} ∪ visited st) (job_urls st) (seen_jobs st)) log') /\
  (forall u rest jobs log e log',
     _get W u log = (Raise e, log') ->
     dassault_details W (u :: rest) jobs log = dassault_details W rest jobs log') /\
  (forall ms fuel st u rest log xml_text log',
     to_visit st = u :: rest -> cap_allows ms st = true -> u ∉ visited st ->
     _get W u log = (Ok xml_text, log') -> xml_fromstring W xml_text = None ->
     crawl_loop W ms (S fuel) st log = (Raise ParseError, log')).
Proof.
  split; [exact (scrape_mathworks_outcome W)|].
  split; [intros; now apply amazon_loop_raises|].
  split.
  { intros bq cc sort rl mp fuel log e log' H. unfold scrape_amazon, bind. now rewrite H. }
  split; [exact (get_raises W)|].
  split.
  { intros mj ms fuel log e H. apply scrape_dassault_raises in H. now subst e. }
  split; [|split].
  - intros ms fuel st u rest log e log' Hq Hc Hu Hg. simpl. rewrite Hq, Hc. simpl.
    rewrite bool_decide_eq_false_2 by exact Hu.
    unfold bind, try_except. now rewrite Hg.
  - intros u rest jobs log e log' Hg. simpl. unfold bind, try_except. now rewrite Hg.
  - intros ms fuel st u rest log xml_text log' Hq Hc Hu Hg Hx. simpl. rewrite Hq, Hc. simpl.
    rewrite bool_decide_eq_false_2 by exact Hu.
    unfold bind, try_except. rewrite Hg. unfold lift, _iter_sitemap_locs. now rewrite Hx.
Qed.

Lemma scrape_failures_witness :
  dassault_details Demo.careers_flaky
    ["https://www.3ds.com/careers/jobs/engineer-546412"; Demo.sm "jobs"] [] []
  = dassault_details Demo.careers_flaky [Demo.sm "jobs"] []
      [Request "https://www.3ds.com/careers/jobs/engineer-546412" []].
Proof.
  destruct (scrape_failures Demo.careers_flaky) as (_ & _ & _ & _ & _ & _ & H & _).
  exact (H "https://www.3ds.com/careers/jobs/engineer-546412" [Demo.sm "jobs"] [] []
           HTTPError _ eq_refl).
Defined.

Example careers_flaky_run :
  run (scrape_dassault Demo.careers_flaky None None 5)
  = (Ok [], [Request SITEMAP_INDEX []; Request (Demo.sm "jobs") [];
             Request "https://www.3ds.com/careers/jobs/engineer-546412" []]).
Proof. vm_compute. reflexivity. Qed.

Example silent_sitemap_run :
  run (scrape_dassault Demo.silent None None 2) = (Ok [], [Request SITEMAP_INDEX []]).
Proof. vm_compute. reflexivity. Qed.

Example silent_feed_run :
  fst (run (scrape_mathworks Demo.silent)) = Raise ConnectionError.
Proof. vm_compute. reflexivity. Qed.

(** A nested sitemap that is not well-formed XML: the parse error is raised
    outside the [try] that guards the request. *)
Example broken_child_run :
  fst (run (scrape_dassault Demo.broken_child None None 5)) = Raise ParseError.
Proof. vm_compute. reflexivity. Qed.

(** * Further properties of the code *)

(** ** Trimming and case *)

Lemma rstrip_idem s : Py.rstrip (Py.rstrip s) = Py.rstrip s.
Proof.
  induction s as [|c r IH]; simpl; [reflexivity|].
  destruct (Py.rstrip r) as [|d r'] eqn:E.
  - destruct (Py.is_space c) eqn:Ec; simpl; [reflexivity | now rewrite Ec].
  - simpl in *. now rewrite IH.
Qed.

Lemma rstrip_head c r : Py.is_space c = false -> Py.rstrip (String c r) = String c (Py.rstrip r).
Proof. intros H. simpl. rewrite H. destruct (Py.rstrip r); reflexivity. Qed.

Lemma lstrip_head s : Py.lstrip s = "" \/ exists c r, Py.lstrip s = String c r /\ Py.is_space c = false.
Proof.
  induction s as [|c r IH]; simpl; [now left|].
  destruct (Py.is_space c) eqn:E; [exact IH|]. right. now exists c, r.
Qed.

(** [strip] is idempotent. *)
Lemma strip_idem s : Py.strip (Py.strip s) = Py.strip s.
Proof.
  unfold Py.strip. destruct (lstrip_head s) as [-> | (c & r & -> & Hc)]; [reflexivity|].
  rewrite (rstrip_head _ _ Hc). simpl Py.lstrip. rewrite Hc.
  rewrite <- (rstrip_head _ _ Hc). apply rstrip_idem.
Qed.

Lemma lstrip_smap f s :
  (forall c, Py.is_space (f c) = Py.is_space c) ->
  Py.lstrip (Py.smap f s) = Py.smap f (Py.lstrip s).
Proof.
  intros Hf. induction s as [|c r IH]; simpl; [reflexivity|].
  rewrite Hf. destruct (Py.is_space c); [exact IH | reflexivity].
Qed.

Lemma rstrip_smap f s :
  (forall c, Py.is_space (f c) = Py.is_space c) ->
  Py.rstrip (Py.smap f s) = Py.smap f (Py.rstrip s).
Proof.
  intros Hf. induction s as [|c r IH]; simpl; [reflexivity|].
  rewrite IH, Hf. destruct (Py.rstrip r); simpl; [|reflexivity].
  destruct (Py.is_space c); reflexivity.
Qed.

Lemma upper_char_space c : Py.is_space (Py.upper_char c) = Py.is_space c.
Proof. each_ascii c. Qed.

Lemma upper_char_idem c : Py.upper_char (Py.upper_char c) = Py.upper_char c.
Proof. each_ascii c. Qed.

Lemma strip_upper s : Py.strip (Py.upper s) = Py.upper (Py.strip s).
Proof.
  unfold Py.strip, Py.upper.
  rewrite lstrip_smap, rstrip_smap by exact upper_char_space. reflexivity.
Qed.

Lemma upper_idem s : Py.upper (Py.upper s) = Py.upper s.
Proof.
  unfold Py.upper. induction s as [|c r IH]; simpl; [reflexivity|].
  now rewrite IH, upper_char_idem.
Qed.

Lemma no_space_lstrip s : no_space s = true -> Py.lstrip s = s.
Proof.
  destruct s as [|c r]; simpl; [reflexivity|].
  unfold no_space. simpl. intros H. apply andb_true_iff in H as [H _].
  apply negb_true_iff in H. now rewrite H.
Qed.

Lemma no_space_rstrip s : no_space s = true -> Py.rstrip s = s.
Proof.
  unfold no_space. induction s as [|c r IH]; simpl; [reflexivity|].
  intros H. apply andb_true_iff in H as [Hc Hr]. apply negb_true_iff in Hc.
  rewrite (IH Hr). rewrite Hc. destruct r; reflexivity.
Qed.

Lemma no_space_strip s : no_space s = true -> Py.strip s = s.
Proof.
  intros H. unfold Py.strip. rewrite (no_space_lstrip _ H). now apply no_space_rstrip.
Qed.

Lemma no_space_collapse s : no_space s = true -> Py.collapse_ws s = s.
Proof.
  unfold no_space, Py.collapse_ws. induction s as [|c r IH]; simpl; [reflexivity|].
  intros H. apply andb_true_iff in H as [Hc Hr]. apply negb_true_iff in Hc.
  rewrite Hc. now rewrite (IH Hr).
Qed.

Lemma titled_title b s : titled_from b s = true -> Py.title_from b s = s.
Proof.
  revert b. induction s as [|c r IH]; intros b; simpl; [reflexivity|].
  intros H. apply andb_true_iff in H as [Hc Hr]. rewrite (IH _ Hr). f_equal.
  revert Hc. clear. destruct b; each_ascii c.
Qed.

Lemma no_space_has_char s : no_space s = true -> Py.has_char space s = false.
Proof.
  unfold no_space. induction s as [|c r IH]; simpl; [reflexivity|].
  intros H. apply andb_true_iff in H as [Hc Hr]. rewrite (IH Hr), orb_false_r.
  revert Hc. clear. each_ascii c.
Qed.

Lemma replace_absent a b s : Py.has_char a s = false -> Py.replace_char a b s = s.
Proof.
  unfold Py.replace_char. induction s as [|c r IH]; simpl; [reflexivity|].
  intros H. apply orb_false_iff in H as [Hc Hr]. now rewrite Hc, (IH Hr).
Qed.

(** What [_clean_city] builds holds no white space at all. *)
Lemma no_space_clean_from z :
  forall b1 b2,
    no_space (Py.replace_char space underscore (Py.title_from b1 (Py.collapse_from b2 z))) = true.
Proof.
  unfold no_space, Py.replace_char.
  induction z as [|c r IH]; intros b1 b2; simpl; [reflexivity|].
  destruct (Py.is_space c) eqn:Ec.
  - destruct b2; [apply IH|]. simpl. rewrite IH.
    destruct b1; reflexivity.
  - simpl. rewrite IH, andb_true_r.
    revert Ec. clear. destruct b1; each_ascii c.
Qed.

Lemma clean_city_no_white_space city : no_space (_clean_city city) = true.
Proof.
  unfold _clean_city. destruct (Py.truthy (Py.strip city)); simpl negb; cbv iota;
    [apply no_space_clean_from | reflexivity].
Qed.

(** A string without white space that is title-cased is a city key already. *)
Lemma clean_city_fixed y :
  no_space y = true -> is_titled y = true -> _clean_city y = y.
Proof.
  intros Hns Ht. unfold _clean_city. rewrite (no_space_strip _ Hns).
  destruct (Py.truthy y) eqn:E; simpl negb; cbv iota;
    [|now apply truthy_false in E].
  rewrite (no_space_collapse _ Hns). unfold Py.title.
  rewrite (titled_title _ _ Ht).
  apply replace_absent. now apply no_space_has_char.
Qed.

(** X1: on ASCII text, cleaning a city a second time changes nothing, and
    the cleaned city is ASCII text again. *)
Theorem clean_city_idempotent (city : string) (Hascii : Py.isascii city = true) :
  _clean_city (_clean_city city) = _clean_city city /\
  Py.isascii (_clean_city city) = true.
Proof.
  split; [|now apply isascii_clean_city].
  apply clean_city_fixed.
  - apply clean_city_no_white_space.
  - apply clean_city_titled.
Qed.

Lemma clean_city_idempotent_witness :
  _clean_city " new   york " = "New_York" /\ _clean_city "New_York" = "New_York".
Proof.
  split; [reflexivity|].
  exact (proj1 (clean_city_idempotent " new   york " eq_refl)).
Defined.

(** X2: on ASCII text the components of a key are fixed by the
    normaliser: normalising the country, state and city parts of a key again
    gives the same key. *)
Theorem normalize_location_fixed_point (country state city : option string) (k : string)
  (Hcountry : Py.isascii_opt country = true)
  (Hstate : Py.isascii_opt state = true)
  (Hcity : Py.isascii_opt city = true)
  (Hk : normalize_location country state city = Some k) :
  normalize_location (Some (Py.upper (Py.strip (Py.or_empty country))))
                     (Some (Py.upper (Py.strip (Py.or_empty state))))
                     (Some (_clean_city (Py.or_empty city)))
  = Some k.
Proof.
  unfold normalize_location in *. simpl Py.or_empty.
  rewrite !strip_upper, !strip_idem, !upper_idem.
  rewrite (clean_city_fixed _ (clean_city_no_white_space _) (clean_city_titled _)).
  exact Hk.
Qed.

Lemma normalize_location_fixed_point_witness :
  normalize_location (Some "US") (Some "MA") (Some "New_York") = Some "US-MA-New_York".
Proof.
  exact (normalize_location_fixed_point (Some " us ") (Some "ma") (Some "new  york")
           "US-MA-New_York" eq_refl eq_refl eq_refl eq_refl).
Defined.

(** X3: whatever the key, [display_location] returns a non-empty string. *)
Theorem display_location_never_empty (key : option string) :
  display_location key <> "".
Proof.
  destruct key as [key|]; [|vm_compute; discriminate].
  unfold display_location.
  destruct (Py.truthy key) eqn:E; simpl negb; cbv iota; [|vm_compute; discriminate].
  destruct (Py.split_max hyphen 2 key) as [|a [|b [|c [|]]]];
    try (now apply truthy_true).
  destruct (Py.truthy b); apply truthy_true;
    change ", " with (String "," " "); apply truthy_append_String.
Qed.

(** ** The location line of a detail page *)

Lemma stripped_parts_stripped ps :
  Forall (fun q => Py.truthy q = true /\ Py.strip q = q) (stripped_parts ps).
Proof.
  induction ps as [|p ps IH]; simpl; [constructor|].
  destruct (Py.truthy (Py.strip p)) eqn:E; [|exact IH].
  constructor; [|exact IH]. split; [exact E | apply strip_idem].
Qed.

Lemma normalize_location_some_country c s ci :
  Py.truthy c = true -> Py.strip c = c ->
  exists rest,
    normalize_location (Some c) (Some s) (Some ci)
    = Some (Py.upper c +:+ "-" +:+ rest).
Proof.
  intros H Hs. unfold normalize_location. simpl Py.or_empty. rewrite Hs.
  unfold Py.upper at 1. rewrite truthy_smap, H. simpl. eexists. reflexivity.
Qed.

(** X5: on an ASCII line [_normalize_ds_location] gives no key exactly
    when the line holds no part that is non-blank between its commas;
    otherwise the key starts with the first such part, trimmed and
    upper-cased, or with US when that part is one of the names of the United
    States in any letter case. *)
Theorem normalize_ds_location_result (loc_raw : string)
  (Hascii : Py.isascii loc_raw = true) :
  (_normalize_ds_location loc_raw = None <->
   stripped_parts (Py.split ","%char loc_raw) = []) /\
  (forall first others,
     stripped_parts (Py.split ","%char loc_raw) = first :: others ->
     exists rest,
       _normalize_ds_location loc_raw
       = Some ((if mem_string (Py.lower first) US_names then "US" else Py.upper first)
               +:+ "-" +:+ rest)).
Proof.
  assert (Hsome : forall first others,
    stripped_parts (Py.split ","%char loc_raw) = first :: others ->
    exists rest,
      _normalize_ds_location loc_raw
      = Some ((if mem_string (Py.lower first) US_names then "US" else Py.upper first)
              +:+ "-" +:+ rest)).
  { intros first others Hp. unfold _normalize_ds_location.
    destruct (Py.truthy loc_raw) eqn:Et; simpl negb; cbv iota.
    2:{ apply truthy_false in Et. subst loc_raw. discriminate Hp. }
    rewrite Hp.
    pose proof (stripped_parts_stripped (Py.split ","%char loc_raw)) as Hs.
    rewrite Hp in Hs. apply List.Forall_inv in Hs as [Hf1 Hf2].
    destruct (mem_string (Py.lower first) US_names).
    - apply (normalize_location_some_country "US"); reflexivity.
    - destruct (3 <=? _)%nat; now apply normalize_location_some_country. }
  split; [|exact Hsome].
  split.
  - intros Hn. destruct (stripped_parts _) as [|first others] eqn:Hp; [reflexivity|].
    destruct (Hsome first others eq_refl) as [rest Hr]. congruence.
  - intros Hp. unfold _normalize_ds_location.
    destruct (negb _); [reflexivity|]. now rewrite Hp.
Qed.

Lemma normalize_ds_location_result_witness :
  exists rest, _normalize_ds_location " usa , Massachusetts, Waltham" = Some ("US" +:+ "-" +:+ rest).
Proof.
  exact (proj2 (normalize_ds_location_result " usa , Massachusetts, Waltham" eq_refl)
           "usa" ["Massachusetts"; "Waltham"] eq_refl).
Defined.

Example normalize_ds_location_samples :
  _normalize_ds_location " usa , Massachusetts, Waltham" = Some "US-MASSACHUSETTS-Waltham" /\
  _normalize_ds_location "France, paris" = Some "FRANCE--Paris" /\
  _normalize_ds_location "India, Karnataka, Bangalore, Campus 2" = Some "INDIA-KARNATAKA-Bangalore" /\
  _normalize_ds_location " , ," = None /\
  _normalize_ds_location "" = None.
Proof. repeat split; vm_compute; reflexivity. Qed.

(** ** Sitemap elements *)

Lemma count_char_le_length c s : (Py.count_char c s <= String.length s)%nat.
Proof.
  induction s as [|x s IH]; simpl; [lia|]. destruct (Ascii.eqb x c); simpl; lia.
Qed.

Lemma length_append (a b : string) :
  String.length (a +:+ b) = (String.length a + String.length b)%nat.
Proof. induction a as [|x a IH]; sapp; simpl; [reflexivity | now rewrite IH]. Qed.

(** With splits to spare, the last part is what follows the last separator. *)
Lemma split_max_last sep a local :
  Py.has_char sep local = false ->
  forall n, (Py.count_char sep a < n)%nat ->
    exists f front, Py.split_max sep n (a +:+ String sep local) = (f :: front) ++ [local].
Proof.
  intros Hl. induction a as [|x a IH]; intros n Hn; sapp.
  - destruct n as [|m]; [lia|]. simpl. rewrite Ascii.eqb_refl.
    rewrite (split_max_no_sep _ _ _ Hl). now exists "", [].
  - simpl in Hn. simpl Py.split_max.
    destruct n as [|m]; [lia|].
    destruct (Ascii.eqb x sep) eqn:E.
    + destruct (IH m ltac:(lia)) as (f & front & ->). now exists "", (f :: front).
    + destruct (IH (S m) ltac:(lia)) as (f & front & ->). simpl.
      now exists (String x f), front.
Qed.

(** X6: [_tag_name] drops whatever precedes the last closing brace, so a
    tag is matched whatever its namespace; a tag without a brace is kept as
    it is. *)
Theorem tag_name_ignores_namespace (ns local : string)
  (Hlocal : Py.has_char "}"%char local = false) :
  _tag_name (ns +:+ "}" +:+ local) = local /\ _tag_name local = local.
Proof.
  split.
  - unfold _tag_name. change ("}" +:+ local) with (String "}"%char local).
    rewrite has_char_append. simpl Py.has_char at 2.
    rewrite orb_true_r. unfold Py.split.
    destruct (split_max_last "}"%char ns local Hlocal
                (String.length (ns +:+ String "}"%char local))) as (f & front & ->).
    + rewrite length_append. simpl.
      pose proof (count_char_le_length "}"%char ns). lia.
    + apply List.last_last.
  - unfold _tag_name. now rewrite Hlocal.
Qed.

Lemma tag_name_ignores_namespace_witness :
  _tag_name "{http://www.sitemaps.org/schemas/sitemap/0.9}loc" = "loc".
Proof.
  exact (proj1 (tag_name_ignores_namespace "{http://www.sitemaps.org/schemas/sitemap/0.9"
                  "loc" eq_refl)).
Defined.

(** ** What the sitemap discovery collects *)

Lemma crawl_loc_queue_inv W st loc : queue_inv W st -> queue_inv W (crawl_loc W st loc).
Proof.
  intros (Hq & Hnd & Hs & Hj). unfold crawl_loc.
  destruct (is_sitemap_loc loc) eqn:Es.
  - destruct (bool_decide _); [now repeat split|].
    repeat split; simpl; auto. apply List.Forall_app. split; [exact Hq | now constructor].
  - destruct (_is_job_url W loc) eqn:Ej; [|now repeat split].
    destruct (bool_decide (loc ∈ seen_jobs st)) eqn:Eb; [now repeat split|].
    apply bool_decide_eq_false in Eb. rewrite Hs in Eb.
    repeat split; simpl; auto.
    + apply NoDup_app. split; [exact Hnd|]. split; [|apply NoDup_singleton].
      intros x Hx Hx'. apply list_elem_of_singleton in Hx'. subst x.
      apply Eb. now apply elem_of_list_to_set.
    + rewrite list_to_set_snoc_L, Hs. apply (comm_L (∪)).
    + apply List.Forall_app. split; [exact Hj | now constructor].
Qed.

Lemma crawl_locs_queue_inv W locs :
  forall st, queue_inv W st -> queue_inv W (List.fold_left (crawl_loc W) locs st).
Proof.
  induction locs as [|l locs IH]; intros st H; simpl; [exact H|].
  apply IH. now apply crawl_loc_queue_inv.
Qed.

Lemma queue_inv_init W : queue_inv W crawl_init.
Proof.
  repeat split; simpl; try constructor; try reflexivity. constructor.
Qed.

(** The discovery requests sitemap locations only, and a state it returns
    satisfies [queue_inv]. *)
Lemma crawl_loop_queue_inv W ms fuel :
  forall st log,
    queue_inv W st ->
    Forall (fun u => is_sitemap_loc u = true) (urls_of log) ->
    Forall (fun u => is_sitemap_loc u = true) (urls_of (snd (crawl_loop W ms fuel st log))) /\
    (forall st', fst (crawl_loop W ms fuel st log) = Ok st' -> queue_inv W st').
Proof.
  induction fuel as [|fuel IH]; intros st log Hinv Hlog.
  - split; [exact Hlog | intros st' E; discriminate E].
  - simpl. destruct (to_visit st) as [|u rest] eqn:Eq.
    { split; [exact Hlog | now intros st' [= <-]]. }
    destruct (cap_allows ms st); simpl negb; cbv iota.
    2:{ split; [exact Hlog | now intros st' [= <-]]. }
    destruct Hinv as (Hq & Hnd & Hs & Hj). rewrite Eq in Hq.
    apply List.Forall_cons_iff in Hq as [Hu Hrest].
    simpl. destruct (bool_decide (u ∈ visited st)).
    { apply IH; [now repeat split | exact Hlog]. }
    unfold bind. destruct (try_get_log W u log) as [o ->].
    assert (Hlog1 : Forall (fun u => is_sitemap_loc u = true)
                      (urls_of (log ++ [Request u []]))).
    { unfold urls_of. rewrite map_app. apply List.Forall_app. split; [exact Hlog|].
      now constructor. }
    destruct o as [xml_text|]; [|apply IH; [now repeat split | exact Hlog1]].
    unfold lift. destruct (_iter_sitemap_locs W xml_text) as [locs|e|]; simpl.
    + apply IH; [|exact Hlog1]. apply crawl_locs_queue_inv. now repeat split.
    + split; [exact Hlog1 | intros st' E; discriminate E].
    + split; [exact Hlog1 | intros st' E; discriminate E].
Qed.

Lemma crawl_loop_state_inv W ms fuel :
  forall st log st' log',
    crawl_loop W ms fuel st log = (Ok st', log') -> queue_inv W st -> queue_inv W st'.
Proof.
  induction fuel as [|fuel IH]; intros st log st' log' H Hinv; [discriminate|].
  simpl in H. destruct (to_visit st) as [|u rest] eqn:Eq; [now injection H as <- _|].
  destruct (cap_allows ms st); simpl negb in H; cbv iota in H;
    [|now injection H as <- _].
  destruct Hinv as (Hq & Hnd & Hs & Hj). rewrite Eq in Hq.
  apply List.Forall_cons_iff in Hq as [Hu Hrest].
  simpl in H. destruct (bool_decide (u ∈ visited st)).
  { apply IH in H; [exact H | now repeat split]. }
  apply bind_Ok in H as (o & l2 & _ & H).
  destruct o as [xml_text|]; [|apply IH in H; [exact H | now repeat split]].
  apply bind_Ok in H as (locs & l3 & _ & H).
  apply IH in H; [exact H|]. apply crawl_locs_queue_inv. now repeat split.
Qed.

Lemma collect_queue_inv W ms fuel log urls log' :
  _collect_job_urls_from_sitemaps W ms fuel log = (Ok urls, log') ->
  exists st, urls = job_urls st /\ queue_inv W st.
Proof.
  unfold _collect_job_urls_from_sitemaps. intros H.
  apply bind_Ok in H as (st & l1 & Hl & Hr). injection Hr as <- _.
  exists st. split; [reflexivity|].
  apply crawl_loop_state_inv in Hl; [exact Hl | apply queue_inv_init].
Qed.

(** X7: the URLs [_collect_job_urls_from_sitemaps] returns are pairwise
    distinct, each matches the job URL shape and none is a sitemap location. *)
Theorem collected_job_urls (W : world) (max_sitemaps : option Z) (fuel : nat)
    (log : list request) (urls : list string) (log' : list request)
  (Hrun : _collect_job_urls_from_sitemaps W max_sitemaps fuel log = (Ok urls, log')) :
  NoDup urls /\
  Forall (fun u => _is_job_url W u = true /\ is_sitemap_loc u = false) urls.
Proof.
  apply collect_queue_inv in Hrun as (st & -> & Hinv).
  destruct Hinv as (_ & Hnd & _ & Hj). split; [exact Hnd | exact Hj].
Qed.

Lemma collected_job_urls_witness :
  NoDup ["https://www.3ds.com/careers/jobs/engineer-546412"].
Proof.
  exact (proj1 (collected_job_urls Demo.careers None 5 []
                  ["https://www.3ds.com/careers/jobs/engineer-546412"]
                  (snd (run (_collect_job_urls_from_sitemaps Demo.careers None 5)))
                  ltac:(vm_compute; reflexivity))).
Defined.

(** ** The detail phase of the sitemap connector *)

Lemma NoDup_firstn {A} n (l : list A) : NoDup l -> NoDup (List.firstn n l).
Proof.
  intros H. rewrite <- (List.firstn_skipn n l) in H. now apply NoDup_app in H as [H _].
Qed.

Lemma In_firstn {A} n (l : list A) x : In x (List.firstn n l) -> In x l.
Proof.
  intros H. rewrite <- (List.firstn_skipn n l). apply in_or_app. now left.
Qed.

Lemma NoDup_slice_to {A} n (l : list A) : NoDup l -> NoDup (slice_to n l).
Proof.
  intros H. unfold slice_to. destruct n as [n|]; [|exact H].
  destruct (0 <=? n)%Z; now apply NoDup_firstn.
Qed.

Lemma In_slice_to {A} n (l : list A) x : In x (slice_to n l) -> In x l.
Proof.
  unfold slice_to. destruct n as [n|]; [|auto].
  destruct (0 <=? n)%Z; apply In_firstn.
Qed.

Lemma slice_to_length {A} n (l : list A) :
  (0 <= n)%Z -> (List.length (slice_to (Some n) l) <= Z.to_nat n)%nat.
Proof.
  intros H. unfold slice_to. apply Z.leb_le in H. rewrite H.
  rewrite List.length_firstn. lia.
Qed.

(** The detail phase requests the URLs it is given, in order, one request
    each, and stops early only when it raises. *)
Lemma dassault_details_log W urls :
  forall jobs log,
    exists k, snd (dassault_details W urls jobs log)
              = log ++ List.map detail_request (List.firstn k urls).
Proof.
  induction urls as [|u urls IH]; intros jobs log; simpl.
  - exists O. simpl. now rewrite app_nil_r.
  - unfold bind. destruct (try_get_log W u log) as [o ->].
    assert (Hnext : forall jobs',
              exists k, snd (dassault_details W urls jobs' (log ++ [Request u []]))
                        = log ++ List.map detail_request (List.firstn k (u :: urls))).
    { intros jobs'. destruct (IH jobs' (log ++ [Request u []])) as [k ->].
      exists (S k). simpl. now rewrite <- app_assoc. }
    destruct o as [html|]; [|apply Hnext].
    unfold lift. destruct (_parse_job_detail W html u) as [[job|]|e|]; simpl;
      try apply Hnext; exists 1%nat; reflexivity.
Qed.

Lemma dassault_details_Ok W urls :
  forall jobs log jobs' log',
    dassault_details W urls jobs log = (Ok jobs', log') ->
    log' = log ++ List.map detail_request urls /\
    (List.length jobs' <= List.length jobs + List.length urls)%nat.
Proof.
  induction urls as [|u urls IH]; intros jobs log jobs' log' H; simpl in H.
  - injection H as <- <-. rewrite app_nil_r. split; [reflexivity | lia].
  - unfold bind in H. destruct (try_get_log W u log) as [o Ho]. rewrite Ho in H.
    assert (Hnext : forall j0,
              dassault_details W urls j0 (log ++ [Request u []]) = (Ok jobs', log') ->
              (List.length j0 <= S (List.length jobs))%nat ->
              log' = log ++ List.map detail_request (u :: urls) /\
              (List.length jobs' <= List.length jobs + List.length (u :: urls))%nat).
    { intros j0 H0 Hlen. apply IH in H0 as [-> Hl]. simpl.
      rewrite <- app_assoc. split; [reflexivity | lia]. }
    destruct o as [html|]; [|apply (Hnext _ H); lia].
    unfold lift in H. destruct (_parse_job_detail W html u) as [[job|]|e|];
      try discriminate; apply (Hnext _ H); [|lia].
    rewrite dict_set_length. destruct (mem_string _ _); lia.
Qed.

(** X8: with a cap of [n >= 0] on the number of jobs, [scrape_dassault]
    requests at most [n] detail pages, after the sitemaps, and returns at
    most [n] jobs. *)
Theorem scrape_dassault_max_jobs (W : world) (n : Z) (max_sitemaps : option Z)
    (fuel : nat) (log : list request) (jobs : list Job) (log' : list request)
  (Hn : (0 <= n)%Z)
  (Hrun : scrape_dassault W (Some n) max_sitemaps fuel log = (Ok jobs, log')) :
  (List.length jobs <= Z.to_nat n)%nat /\
  exists urls,
    log' = snd (_collect_job_urls_from_sitemaps W max_sitemaps fuel log)
           ++ List.map detail_request urls /\
    (List.length urls <= Z.to_nat n)%nat.
Proof.
  unfold scrape_dassault in Hrun.
  apply bind_Ok in Hrun as (urls & l1 & Hc & H).
  apply bind_Ok in H as (d & l2 & Hd & H). injection H as <- <-.
  apply dassault_details_Ok in Hd as [-> Hlen]. cbn [List.length] in Hlen.
  pose proof (slice_to_length n urls Hn) as Hs.
  split.
  - unfold dict_values. rewrite length_map. lia.
  - exists (slice_to (Some n) urls). rewrite Hc. simpl. now split.
Qed.

Lemma scrape_dassault_max_jobs_witness :
  (List.length
     [mkJob COMPANY "Dassault Systemes:546412" "Engineer"
        "https://www.3ds.com/careers/jobs/engineer-546412" (Some "FRANCE--Paris") None]
   <= Z.to_nat 1)%nat.
Proof.
  exact (proj1 (scrape_dassault_max_jobs Demo.careers 1 None 5 [] _
                  (snd (run (scrape_dassault Demo.careers (Some 1%Z) None 5)))
                  ltac:(lia) ltac:(vm_compute; reflexivity))).
Defined.

(** X9: in a run of [scrape_dassault] no URL is requested twice, sitemaps
    and detail pages taken together, however the run ends. *)
Theorem scrape_dassault_requests_distinct (W : world) (max_jobs max_sitemaps : option Z)
    (fuel : nat) :
  NoDup (urls_of (snd (run (scrape_dassault W max_jobs max_sitemaps fuel)))).
Proof.
  unfold run, scrape_dassault, _collect_job_urls_from_sitemaps, bind.
  destruct (crawl_loop W max_sitemaps fuel crawl_init []) as [r l1] eqn:E.
  destruct (crawl_loop_inv _ _ _ _ _ _ _ E crawl_inv_init) as (Hnd & _ & _).
  pose proof (crawl_loop_queue_inv W max_sitemaps fuel crawl_init []
                (queue_inv_init W) ltac:(constructor)) as [Hsm Hq].
  rewrite E in Hsm, Hq. simpl in Hsm, Hq.
  destruct r as [st|e|]; simpl; try exact Hnd.
  destruct (Hq st eq_refl) as (_ & Hndj & _ & Hj).
  destruct (dassault_details_log W (slice_to max_jobs (job_urls st)) [] l1) as [k Hk].
  assert (Hlog : snd (let (r, log') := dassault_details W (slice_to max_jobs (job_urls st)) [] l1 in
                      match r with
                      | Ok a => ret (dict_values a) log'
                      | Raise e => (Raise e, log')
                      | OutOfFuel => (OutOfFuel, log')
                      end)
                 = l1 ++ List.map detail_request (List.firstn k (slice_to max_jobs (job_urls st)))).
  { rewrite <- Hk.
    destruct (dassault_details W (slice_to max_jobs (job_urls st)) [] l1) as [[a|e|] l2];
      reflexivity. }
  rewrite Hlog. unfold urls_of. rewrite map_app, List.map_map. simpl. rewrite List.map_id.
  apply NoDup_app. split; [exact Hnd|]. split.
  - intros x Hx Hx'. apply list_elem_of_In in Hx, Hx'.
    rewrite List.Forall_forall in Hsm, Hj.
    apply Hsm in Hx. apply In_firstn, In_slice_to, Hj in Hx'. destruct Hx' as [_ Hx'].
    congruence.
  - now apply NoDup_firstn, NoDup_slice_to.
Qed.

(** ** Pages of the paginated connector *)

Lemma len_truthy jobs n : PyVal.truthy jobs = true -> PyVal.len jobs = Ok n -> (1 <= n)%Z.
Proof.
  destruct jobs as [|b|z|s|l|d]; simpl; try discriminate.
  - destruct s; [discriminate|]. intros _ [= <-]. simpl. lia.
  - destruct l; [discriminate|]. intros _ [= <-]. simpl. lia.
  - destruct d; [discriminate|]. intros _ [= <-]. simpl. lia.
Qed.

(** A page after which the loop goes on: one more page counted, and the
    offset moved forward by the number of items of the page, at least one. *)
Lemma amazon_page_continue W data st st' :
  amazon_page W data st = Ok (Continue st') ->
  pages_fetched st' = (pages_fetched st + 1)%Z /\
  exists jobs n,
    PyVal.get_default data "jobs" (JList []) = Ok jobs /\
    PyVal.len jobs = Ok n /\ (1 <= n)%Z /\ offset st' = (offset st + n)%Z.
Proof.
  intros H. apply amazon_page_inv in H as (jobs & Hj & [[_ H] | [Ht H]]); [discriminate|].
  destruct H as (items & d' & n & hits & _ & _ & [[_ H] | (_ & Hn & _ & H)]); [discriminate|].
  assert (Hst : st' = AmazonState d' (offset st + n) (pages_fetched st + 1)
                  (if (dict_len d' =? dict_len (all_jobs st))%Z
                   then (consecutive_no_new st + 1)%Z else 0%Z)).
  { destruct (PyVal.as_int hits) as [h|]; [destruct (h <=? _)%Z|];
      first [discriminate | now injection H as ->]. }
  subst st'. simpl. split; [reflexivity|].
  exists jobs, n. repeat split; auto. now apply (len_truthy jobs).
Qed.

Lemma amazon_loop_capped W bq cc sort rl m fuel :
  forall st log,
    (Z.to_nat (m - pages_fetched st) < fuel)%nat ->
    finished (fst (amazon_loop W bq cc sort rl (Some m) fuel st log)) /\
    (List.length (snd (amazon_loop W bq cc sort rl (Some m) fuel st log))
     <= List.length log + Z.to_nat (m - pages_fetched st))%nat.
Proof.
  induction fuel as [|fuel IH]; intros st log Hfuel; [lia|].
  simpl. destruct (m <=? pages_fetched st)%Z eqn:Em.
  { split; [apply finished_Ok | simpl; lia]. }
  apply Z.leb_gt in Em. unfold bind.
  destruct (request_log W (amazon_params bq cc sort rl (offset st)) log) as [Hl Hf].
  destruct (_request W (amazon_params bq cc sort rl (offset st)) log)
    as [[data|e|] l1]; simpl in Hl, Hf; subst l1;
    [| split; [apply finished_Raise | simpl; rewrite length_app; simpl; lia]
     | now contradiction Hf].
  unfold lift. pose proof (finished_amazon_page W data st) as Hfp.
  destruct (amazon_page W data st) as [[st'|st']|e|] eqn:Ep;
    [ split; [apply finished_Ok | simpl; rewrite length_app; simpl; lia]
    | | split; [apply finished_Raise | simpl; rewrite length_app; simpl; lia]
    | now contradiction Hfp ].
  apply amazon_page_continue in Ep as [Hp _].
  destruct (IH st' (log ++ [Request SEARCH_JSON (amazon_params bq cc sort rl (offset st))]))
    as [H1 H2]; [rewrite Hp; lia|].
  split; [exact H1|]. rewrite length_app, Hp in H2. simpl in H2. lia.
Qed.

(** X10: with a page cap [m], [scrape_amazon] comes to an end whatever the
    source answers, and makes at most [m] requests (none when [m <= 0]). *)
Theorem scrape_amazon_max_pages (W : world) (bq cc sort : string) (rl m : Z) (fuel : nat)
  (Hfuel : (Z.to_nat m < fuel)%nat) :
  finished (fst (run (scrape_amazon W bq cc sort rl (Some m) fuel))) /\
  (List.length (snd (run (scrape_amazon W bq cc sort rl (Some m) fuel))) <= Z.to_nat m)%nat.
Proof.
  unfold run, scrape_amazon, bind.
  destruct (amazon_loop_capped W bq cc sort rl m fuel amazon_init []) as [H1 H2];
    [simpl; now rewrite Z.sub_0_r|].
  simpl in H2. rewrite Z.sub_0_r in H2.
  destruct (amazon_loop W bq cc sort rl (Some m) fuel amazon_init []) as [[st|e|] l];
    simpl in *; (split; [|exact H2]);
    [apply finished_Ok | apply finished_Raise | now contradiction H1].
Qed.

Lemma scrape_amazon_max_pages_witness :
  (List.length (snd (run (scrape_amazon Demo.same_page_forever "" "USA" "recent" 50
                            (Some 2%Z) 3))) <= 2)%nat.
Proof.
  exact (proj2 (scrape_amazon_max_pages Demo.same_page_forever "" "USA" "recent" 50 2 3
                  ltac:(simpl; lia))).
Defined.

Lemma StronglySorted_snoc {A} (R : A -> A -> Prop) l a :
  StronglySorted R l -> Forall (fun x => R x a) l -> StronglySorted R (l ++ [a]).
Proof.
  induction 1 as [|x l Hs IH Hx]; intros Ha; simpl.
  - repeat constructor.
  - apply List.Forall_cons_iff in Ha as [Hxa Hla]. constructor; [now apply IH|].
    apply List.Forall_app. split; [exact Hx | now constructor].
Qed.

Lemma request_offset_params bq cc sort rl o :
  request_offset (Request SEARCH_JSON (amazon_params bq cc sort rl o)) = o.
Proof. reflexivity. Qed.

Lemma amazon_loop_offsets W bq cc sort rl mp fuel :
  forall st log,
    StronglySorted Z.lt (offsets_of log) ->
    Forall (fun o => (o < offset st)%Z) (offsets_of log) ->
    StronglySorted Z.lt (offsets_of (snd (amazon_loop W bq cc sort rl mp fuel st log))).
Proof.
  induction fuel as [|fuel IH]; intros st log Hs Hlt; [exact Hs|].
  simpl. destruct (max_pages_reached mp st); [exact Hs|].
  unfold bind.
  destruct (request_log W (amazon_params bq cc sort rl (offset st)) log) as [Hl _].
  assert (Hs1 : StronglySorted Z.lt
                  (offsets_of (log ++ [Request SEARCH_JSON
                                         (amazon_params bq cc sort rl (offset st))]))).
  { unfold offsets_of. rewrite map_app. simpl. rewrite request_offset_params.
    now apply StronglySorted_snoc. }
  destruct (_request W (amazon_params bq cc sort rl (offset st)) log)
    as [[data|e|] l1]; simpl in Hl; subst l1; try exact Hs1.
  unfold lift.
  destruct (amazon_page W data st) as [[st'|st']|e|] eqn:Ep; try exact Hs1.
  apply IH; [exact Hs1|].
  apply amazon_page_continue in Ep as (_ & jobs & n & _ & _ & Hn & Ho).
  unfold offsets_of. rewrite map_app. simpl. rewrite request_offset_params.
  apply List.Forall_app. split.
  - eapply List.Forall_impl; [|exact Hlt]. simpl. intros o Hlo. lia.
  - constructor; [lia | constructor].
Qed.

(** X11: the offsets [scrape_amazon] asks for grow strictly from one
    request to the next, so no page is asked for twice. *)
Theorem scrape_amazon_offsets_increase (W : world) (bq cc sort : string) (rl : Z)
    (mp : option Z) (fuel : nat) :
  StronglySorted Z.lt
    (offsets_of (snd (run (scrape_amazon W bq cc sort rl mp fuel)))).
Proof.
  unfold run, scrape_amazon, bind.
  pose proof (amazon_loop_offsets W bq cc sort rl mp fuel amazon_init []
                ltac:(constructor) ltac:(constructor)) as H.
  destruct (amazon_loop W bq cc sort rl mp fuel amazon_init []) as [[st|e|] l]; exact H.
Qed.

(** ** The shape of the jobs returned *)

Lemma amazon_items_inv_gen W (P : Job -> Prop) :
  (forall j job, amazon_job W j = Ok (Some job) -> P job) ->
  forall items d d', amazon_items W items d = Ok d' -> dict_inv P d -> dict_inv P d'.
Proof.
  intros HP. induction items as [|j items IH]; simpl; intros d d' H Hd.
  - now injection H as <-.
  - rbind_inv H. apply (IH _ _ H).
    apply amazon_item_inv in Hv as [[_ ->] | (job & Hj & ->)]; [exact Hd|].
    apply dict_inv_set; [exact Hd | now apply HP in Hj].
Qed.

Lemma amazon_loop_inv_gen W (P : Job -> Prop) bq cc sort rl mp :
  (forall j job, amazon_job W j = Ok (Some job) -> P job) ->
  forall fuel st log st' log',
    amazon_loop W bq cc sort rl mp fuel st log = (Ok st', log') ->
    dict_inv P (all_jobs st) -> dict_inv P (all_jobs st').
Proof.
  intros HP. induction fuel as [|fuel IH]; intros st log st' log' H Hd; [discriminate|].
  simpl in H. destruct (max_pages_reached mp st); [now injection H as <- _|].
  apply bind_Ok in H as (data & l1 & _ & H).
  apply bind_Ok in H as (next & l2 & Hp & H).
  unfold lift in Hp. injection Hp as Hp _.
  assert (Hn : dict_inv P (all_jobs (flow_state next))).
  { apply amazon_page_inv in Hp as (jobs & _ & [[_ ->] | [_ Hp]]); [exact Hd|].
    destruct Hp as (items & d' & n & hits & _ & Hitems & Hp).
    apply (amazon_items_inv_gen W P HP) in Hitems; [|exact Hd].
    destruct Hp as [[_ ->] | (_ & _ & _ & ->)]; [exact Hitems|].
    destruct (PyVal.as_int hits) as [h|]; [destruct (h <=? _)%Z|]; exact Hitems. }
  destruct next as [s|s]; simpl in Hn; [now injection H as <- _ | now apply IH in H].
Qed.

Lemma amazon_job_shaped W j job : amazon_job W j = Ok (Some job) -> amazon_job_shape job.
Proof.
  unfold amazon_job. intros H.
  rbind_inv H. rename v into t. rbind_inv H. rename v into ttl.
  rbind_inv H. rename v into p.
  destruct (negb (Py.truthy ttl) || negb (PyVal.truthy (PyVal.or p (JStr "")))) eqn:E;
    [discriminate|].
  apply orb_false_iff in E as [E1 E2]. apply negb_false_iff in E1, E2.
  rbind_inv H. rename v into u. do 3 rbind_inv H. injection H as <-.
  unfold amazon_job_shape. simpl.
  split; [reflexivity|]. split; [now apply truthy_true|]. split.
  - unfold is_stripped. destruct (PyVal.or t (JStr "")); try discriminate.
    injection Hv0 as <-. apply strip_idem.
  - split; [|reflexivity].
    destruct (PyVal.or p (JStr "")) as [| | |s| |]; try discriminate.
    injection Hv2 as <-. exists s. split; [now apply truthy_true | reflexivity].
Qed.

(** X12: every job [scrape_amazon] returns carries the company name, a
    non-empty title without surrounding white space, a URL made of the site
    address followed by a non-empty path, and no description. *)
Theorem scrape_amazon_job_shape (W : world) (bq cc sort : string) (rl : Z)
    (mp : option Z) (fuel : nat) (log : list request) (jobs : list Job)
    (log' : list request)
  (Hrun : scrape_amazon W bq cc sort rl mp fuel log = (Ok jobs, log')) :
  Forall amazon_job_shape jobs.
Proof.
  unfold scrape_amazon in Hrun. apply bind_Ok in Hrun as (st & l1 & Hl & H).
  injection H as <- _.
  apply (amazon_loop_inv_gen W amazon_job_shape) in Hl.
  - now apply dict_inv_values in Hl.
  - apply amazon_job_shaped.
  - apply dict_inv_nil.
Qed.

Lemma scrape_amazon_job_shape_witness :
  Forall amazon_job_shape
    [mkJob "Amazon" "Amazon:1" "Engineer" "https://www.amazon.jobs/en/jobs/1"
       (Some "US-WA-Seattle") None].
Proof.
  exact (scrape_amazon_job_shape Demo.same_page_forever "" "USA" "recent" 50 None 4 [] _
           (snd (run (scrape_amazon Demo.same_page_forever "" "USA" "recent" 50 None 4)))
           ltac:(vm_compute; reflexivity)).
Defined.

Lemma dassault_details_inv_gen W (P : Job -> Prop) urls :
  (forall u html job, In u urls -> _parse_job_detail W html u = Ok (Some job) -> P job) ->
  forall d log d' log',
    dassault_details W urls d log = (Ok d', log') -> dict_inv P d -> dict_inv P d'.
Proof.
  induction urls as [|u urls IH]; intros HP d log d' log' H Hd; simpl in H.
  - now injection H as <- _.
  - assert (HP' : forall u0 html job, In u0 urls ->
                    _parse_job_detail W html u0 = Ok (Some job) -> P job).
    { intros u0 html job Hin. apply HP. now right. }
    apply bind_Ok in H as (fetched & l1 & _ & H).
    destruct fetched as [html|]; [|now apply (IH HP') in H].
    apply bind_Ok in H as (job & l2 & Hp & H).
    unfold lift in Hp. injection Hp as Hp _.
    destruct job as [job|]; [|now apply (IH HP') in H].
    apply (IH HP') in H; [exact H|].
    apply dict_inv_set; [exact Hd|]. apply (HP u html job); [now left | exact Hp].
Qed.

Lemma parse_job_detail_shaped W html u job :
  _is_job_url W u = true -> is_sitemap_loc u = false ->
  _parse_job_detail W html u = Ok (Some job) -> dassault_job_shape W job.
Proof.
  intros Hu Hs. unfold _parse_job_detail.
  set (t := Py.strip _).
  destruct (Py.truthy t) eqn:Et; simpl negb; cbv iota; [|discriminate].
  destruct (urlparse W u) as [p|]; [|discriminate].
  intros [= <-]. unfold dassault_job_shape. simpl.
  repeat split; auto; [now apply truthy_true | apply strip_idem].
Qed.

(** X13: every job [scrape_dassault] returns carries the company name, a
    non-empty title without surrounding white space, a URL that matches the
    job URL shape and is no sitemap location, and no description. *)
Theorem scrape_dassault_job_shape (W : world) (max_jobs max_sitemaps : option Z)
    (fuel : nat) (log : list request) (jobs : list Job) (log' : list request)
  (Hrun : scrape_dassault W max_jobs max_sitemaps fuel log = (Ok jobs, log')) :
  Forall (dassault_job_shape W) jobs.
Proof.
  unfold scrape_dassault in Hrun.
  apply bind_Ok in Hrun as (urls & l1 & Hc & H).
  apply bind_Ok in H as (d & l2 & Hd & H). injection H as <- _.
  apply collect_queue_inv in Hc as (st & -> & _ & _ & _ & Hj).
  rewrite List.Forall_forall in Hj.
  apply (dassault_details_inv_gen W (dassault_job_shape W)) in Hd.
  - now apply dict_inv_values in Hd.
  - intros u html job Hin Hp. apply In_slice_to, Hj in Hin as [H1 H2].
    now apply (parse_job_detail_shaped W html u).
  - apply dict_inv_nil.
Qed.

Lemma scrape_dassault_job_shape_witness :
  Forall (dassault_job_shape Demo.careers)
    [mkJob COMPANY "Dassault Systemes:546412" "Engineer"
       "https://www.3ds.com/careers/jobs/engineer-546412" (Some "FRANCE--Paris") None].
Proof.
  exact (scrape_dassault_job_shape Demo.careers None None 5 [] _
           (snd (run (scrape_dassault Demo.careers None None 5)))
           ltac:(vm_compute; reflexivity)).
Defined.

Lemma mathworks_entries_length es :
  (List.length (mathworks_entries es []) <= List.length es)%nat.
Proof.
  pose proof (f_equal (@List.length _) (mathworks_entries_urls es)) as H.
  rewrite !length_map in H. rewrite H. apply List.filter_length_le.
Qed.

(** X14: [scrape_mathworks] makes exactly one request; when it returns,
    the reply had no error status, and every job carries the company name,
    a non-empty title without surrounding white space, a non-empty URL and
    no description; there are at most as many jobs as feed entries. *)
Theorem scrape_mathworks_job_shape (W : world) (log : list request) (jobs : list Job)
    (log' : list request)
  (Hrun : scrape_mathworks W log = (Ok jobs, log')) :
  log' = log ++ [Request RSS_URL []] /\
  Forall mathworks_job_shape jobs /\
  exists st body,
    send W log (Request RSS_URL []) = Reply st body /\
    ((400 <=? st) && (st <? 600))%Z = false /\
    (List.length jobs <= List.length (feedparser_parse W body))%nat.
Proof.
  rewrite scrape_mathworks_outcome in Hrun.
  destruct (send W log (Request RSS_URL [])) as [st body|]; [|discriminate].
  destruct ((400 <=? st) && (st <? 600))%Z eqn:Est; [discriminate|].
  injection Hrun as <- <-. split; [reflexivity|]. split.
  - apply List.Forall_forall. intros j Hj.
    apply mathworks_entries_inv in Hj as (e & _ & Ht & Hu & ->).
    unfold mathworks_job_shape. simpl in *.
    repeat split; try (now apply truthy_true). apply strip_idem.
  - exists st, body. split; [reflexivity|]. split; [exact Est|].
    apply mathworks_entries_length.
Qed.

Lemma scrape_mathworks_job_shape_witness :
  snd (run (scrape_mathworks Demo.repeating_feed)) = [] ++ [Request RSS_URL []].
Proof.
  exact (proj1 (scrape_mathworks_job_shape Demo.repeating_feed []
                  _ (snd (run (scrape_mathworks Demo.repeating_feed)))
                  ltac:(vm_compute; reflexivity))).
Defined.

(** ** Items of a page *)

Lemma get_field d k : PyVal.get (JDict d) k = Ok (field d k).
Proof. reflexivity. Qed.

(** X15: an item whose title is missing, null or blank, or whose title is a
    string and whose job_path is missing, null or empty, is passed over: the
    accumulation map stays as it is and nothing is raised. *)
Theorem amazon_item_skipped (W : world) (d : list (string * json))
    (all_jobs : list (string * Job))
  (Hitem : blank_title (field d "title") \/
           ((exists s, field d "title" = JStr s) /\
            PyVal.truthy (field d "job_path") = false)) :
  amazon_item W (JDict d) all_jobs = Ok all_jobs.
Proof.
  unfold amazon_item, amazon_job. rewrite !get_field. simpl rbind.
  destruct Hitem as [[Hf | (s & Hs & Hb)] | [(s & Hs) Hp]].
  - unfold PyVal.or at 1. rewrite Hf. reflexivity.
  - rewrite Hs. unfold PyVal.or at 1. simpl PyVal.truthy.
    destruct (Py.truthy s) eqn:Es; simpl; [now rewrite Hb|reflexivity].
  - rewrite Hs. unfold PyVal.or. rewrite Hp. simpl PyVal.truthy.
    destruct (Py.truthy s); cbn [PyVal.strip rbind negb]; now rewrite orb_true_r.
Qed.

Lemma amazon_item_skipped_witness :
  amazon_item Demo.silent (JDict [("title", JStr "  "); ("job_path", JStr "/en/jobs/2")]) []
  = Ok [].
Proof.
  apply amazon_item_skipped. left. right. now exists "  ".
Defined.

(** X16: an item that is no dict, or whose title is a non-empty value that
    is no string, raises AttributeError, and an item with a proper title
    whose job_path is a non-empty value that is no string raises TypeError
    (the title being ASCII text that is not blank); the exception leaves
    the page and the loop, so the run is lost. *)
Theorem amazon_item_type_errors (W : world) (acc : list (string * Job)) :
  (forall j, (forall d, j <> JDict d) -> amazon_item W j acc = Raise AttributeError) /\
  (forall d,
     PyVal.truthy (field d "title") = true -> is_str (field d "title") = false ->
     amazon_item W (JDict d) acc = Raise AttributeError) /\
  (forall d s,
     field d "title" = JStr s -> Py.isascii s = true -> Py.strip s <> "" ->
     PyVal.truthy (field d "job_path") = true -> is_str (field d "job_path") = false ->
     amazon_item W (JDict d) acc = Raise TypeError) /\
  (forall bq cc sort rl mp fuel st log data log' item rest e,
     max_pages_reached mp st = false ->
     _request W (amazon_params bq cc sort rl (offset st)) log = (Ok data, log') ->
     PyVal.get_default data "jobs" (JList []) = Ok (JList (item :: rest)) ->
     amazon_item W item (all_jobs st) = Raise e ->
     amazon_loop W bq cc sort rl mp (S fuel) st log = (Raise e, log')).
Proof.
  split; [|split; [|split]].
  - intros j Hj. destruct j as [| | | | |d]; try reflexivity. now contradiction (Hj d).
  - intros d Ht Hs. unfold amazon_item, amazon_job. rewrite !get_field. simpl rbind.
    unfold PyVal.or at 1. rewrite Ht.
    destruct (field d "title"); try discriminate; reflexivity.
  - intros d s Ht _ Hs Hp Hstr. unfold amazon_item, amazon_job. rewrite !get_field.
    simpl rbind. rewrite Ht. unfold PyVal.or. rewrite Hp. simpl PyVal.truthy.
    destruct (Py.truthy s) eqn:Es.
    2:{ apply truthy_false in Es. subst s. now contradiction Hs. }
    simpl. destruct (Py.truthy (Py.strip s)) eqn:Ess.
    2:{ apply truthy_false in Ess. now contradiction Hs. }
    rewrite Hp. simpl.
    destruct (field d "job_path"); try discriminate; reflexivity.
  - intros bq cc sort rl mp fuel st log data log' item rest e Hmp Hr Hj Hi.
    simpl. rewrite Hmp. unfold bind. rewrite Hr. unfold lift, amazon_page.
    rewrite Hj. simpl. now rewrite Hi.
Qed.

Lemma amazon_item_type_errors_witness :
  amazon_item Demo.silent (JDict [("title", JInt 7); ("job_path", JStr "/en/jobs/2")]) []
  = Raise AttributeError /\
  amazon_item Demo.silent (JDict [("title", JStr " Engineer "); ("job_path", JInt 5)]) []
  = Raise TypeError.
Proof.
  destruct (amazon_item_type_errors Demo.silent []) as (_ & H2 & H3 & _).
  split; [apply H2; reflexivity|].
  apply (H3 _ " Engineer "); [reflexivity | reflexivity | discriminate | reflexivity | reflexivity].
Defined.

(** ** The dict form of the sitemap connector's result *)

Lemma job_dict_fields j :
  List.map fst (job_dict j) = job_dict_keys /\
  entry_get (job_dict j) "job_id" = Some (job_id j) /\
  entry_get (job_dict j) "location" = Some (Py.or_empty (location j)) /\
  entry_get (job_dict j) "description" = Some (Py.or_empty (description j)).
Proof. repeat split. Qed.

Lemma NoDup_map_Some {A} (l : list A) : NoDup l -> NoDup (List.map Some l).
Proof.
  induction 1 as [|x l Hx Hl IH]; simpl; constructor; [|exact IH].
  intros Hin. apply Hx. apply list_elem_of_In in Hin. apply list_elem_of_In.
  apply List.in_map_iff in Hin as (y & [= ->] & Hy). exact Hy.
Qed.

Lemma canonical_key_nonempty k : canonical_key k -> k <> "".
Proof.
  intros H E. apply canonical_key_hyphens in H. subst k. simpl in H. lia.
Qed.

Lemma scrape_dassault_descriptions W mj ms fuel log jobs log' :
  scrape_dassault W mj ms fuel log = (Ok jobs, log') ->
  Forall (fun j => description j = None) jobs.
Proof.
  unfold scrape_dassault. intros H.
  apply bind_Ok in H as (urls & l1 & _ & H).
  apply bind_Ok in H as (d & l2 & Hd & H). injection H as <- _.
  apply (dassault_details_inv_gen W (fun j => description j = None)) in Hd.
  - now apply dict_inv_values in Hd.
  - intros u html job _ Hp. apply parse_job_detail_inv in Hp as (p & _ & _ & ->).
    reflexivity.
  - apply dict_inv_nil.
Qed.

(** X17: [scrape_dassault_dicts] makes the requests of [scrape_dassault]
    and returns one dict per job, in the same order, each with the six keys
    company, job_id, title, url, location, description; the job_ids are
    pairwise distinct, the description is always empty, and the location is
    empty exactly when the job has none. *)
Theorem scrape_dassault_dicts_result (W : world) (max_jobs max_sitemaps : option Z)
    (fuel : nat) (log : list request) (dicts : list (list (string * string)))
    (log' : list request)
  (Hrun : scrape_dassault_dicts W max_jobs max_sitemaps fuel log = (Ok dicts, log')) :
  exists jobs,
    scrape_dassault W max_jobs max_sitemaps fuel log = (Ok jobs, log') /\
    dicts = List.map job_dict jobs /\
    Forall (fun d => List.map fst d = job_dict_keys /\
                     entry_get d "description" = Some "") dicts /\
    NoDup (List.map (fun d => entry_get d "job_id") dicts) /\
    Forall (fun j => entry_get (job_dict j) "location" = Some "" <-> location j = None) jobs.
Proof.
  unfold scrape_dassault_dicts in Hrun.
  apply bind_Ok in Hrun as (jobs & l1 & Hs & H). injection H as <- <-.
  exists jobs. split; [exact Hs|]. split; [reflexivity|].
  pose proof (scrape_dassault_descriptions _ _ _ _ _ _ _ Hs) as Hshape.
  pose proof (scrape_dassault_jobs _ _ _ _ _ _ _ Hs) as [Hnd Hok].
  split; [|split].
  - apply List.Forall_forall. intros d Hd. apply List.in_map_iff in Hd as (j & <- & Hj).
    rewrite List.Forall_forall in Hshape. pose proof (Hshape j Hj) as Hdesc.
    split; [reflexivity|]. simpl. now rewrite Hdesc.
  - rewrite List.map_map.
    rewrite (List.map_ext _ (fun j => Some (job_id j))) by reflexivity.
    rewrite <- (List.map_map job_id Some). now apply NoDup_map_Some.
  - apply List.Forall_forall. intros j Hj. rewrite List.Forall_forall in Hok.
    destruct (Hok j Hj) as (_ & _ & Hloc). simpl.
    destruct (location j) as [k|]; simpl in *.
    + split; [|discriminate]. intros [= E]. now apply canonical_key_nonempty in Hloc.
    + split; reflexivity.
Qed.

Lemma scrape_dassault_dicts_result_witness :
  exists jobs,
    scrape_dassault Demo.careers None None 5 [] = (Ok jobs, snd (run (scrape_dassault Demo.careers None None 5))) /\
    [[("company", "Dassault Systemes"); ("job_id", "Dassault Systemes:546412");
      ("title", "Engineer"); ("url", "https://www.3ds.com/careers/jobs/engineer-546412");
      ("location", "FRANCE--Paris"); ("description", "")]] = List.map job_dict jobs.
Proof.
  destruct (scrape_dassault_dicts_result Demo.careers None None 5 [] _
              (snd (run (scrape_dassault Demo.careers None None 5)))
              ltac:(vm_compute; reflexivity)) as (jobs & H1 & H2 & _).
  exists jobs. split; [exact H1 | exact H2].
Defined.

(** ** Keys of the normaliser under the display formatter *)

(** X4: on a key the normaliser has returned, [display_location] never
    takes the way out for malformed keys: the key splits into exactly three
    parts, the first two free of hyphens, and what is displayed is city,
    state if any, country. *)
Theorem display_canonical_key (k : string) (Hk : canonical_key k) :
  exists country state city,
    Py.split_max hyphen 2 k = [country; state; city] /\
    Py.has_char hyphen country = false /\ Py.has_char hyphen state = false /\
    display_location (Some k)
    = Py.replace_char underscore space city +:+ ", "
        +:+ (if Py.truthy state then state +:+ ", " else "") +:+ country.
Proof.
  pose proof (canonical_key_hyphens k Hk) as Hh.
  apply three_parts_iff in Hh.
  destruct (Py.split_max hyphen 2 k) as [|a [|b [|c [|]]]] eqn:Es; try discriminate.
  exists a, b, c. destruct (split_max_three _ _ _ _ _ Es) as (Hkey & Ha & Hb).
  repeat split; auto.
  rewrite display_location_nonempty by (now apply canonical_key_nonempty).
  unfold Spec.display, Spec.is_empty. rewrite Es.
  destruct (Py.truthy b); simpl negb; cbv iota; [|reflexivity].
  now rewrite !append_assoc.
Qed.

Lemma display_canonical_key_witness :
  exists country state city,
    Py.split_max hyphen 2 "US-MA-Natick" = [country; state; city] /\
    Py.has_char hyphen country = false /\ Py.has_char hyphen state = false /\
    display_location (Some "US-MA-Natick")
    = Py.replace_char underscore space city +:+ ", "
        +:+ (if Py.truthy state then state +:+ ", " else "") +:+ country.
Proof.
  apply display_canonical_key.
  exists (Some "us"), (Some "ma"), (Some "natick"). reflexivity.
Defined.

(** ** The location of an item of the paginated connector *)

Lemma extract_amazon_location_unfold W d :
  _extract_amazon_location W (JDict d) =
  let fallback := normalize_location_json (field d "country_code") (field d "state")
                    (field d "city") in
  match field d "locations" with
  | JList (first :: _) =>
      let first :=
        match first with
        | JStr s => match json_loads W s with Some v => v | None => JNull end
        | _ => first
        end in
      match first with
      | JDict loc =>
          normalize_location_json
            (PyVal.or (field loc "countryIso2a") (field loc "normalizedCountryCode"))
            (PyVal.or (field loc "region") (field loc "normalizedStateName"))
            (PyVal.or (field loc "normalizedCityName") (field loc "city"))
      | _ => fallback
      end
  | _ => fallback
  end.
Proof.
  unfold _extract_amazon_location. rewrite !get_field. simpl rbind.
  destruct (field d "locations") as [| | | |[|first l]|]; try reflexivity.
  destruct first as [| | |s| |loc]; try reflexivity.
  destruct (json_loads W s) as [[| | | | |loc]|]; reflexivity.
Qed.

(** X18: of the locations of an item only the first counts; when it is a
    string that does not decode, or decodes to something that is no dict,
    the top-level country_code, state and city are used and nothing is
    raised; when it decodes to a dict, it is read as that dict would be. *)
Theorem extract_amazon_location_first (W : world) (d : list (string * json)) :
  (forall d' first rest rest',
     field d "locations" = JList (first :: rest) ->
     field d' "locations" = JList (first :: rest') ->
     (forall k, k <> "locations" -> field d' k = field d k) ->
     _extract_amazon_location W (JDict d') = _extract_amazon_location W (JDict d)) /\
  (forall s rest,
     field d "locations" = JList (JStr s :: rest) ->
     (forall loc, json_loads W s <> Some (JDict loc)) ->
     _extract_amazon_location W (JDict d)
     = normalize_location_json (field d "country_code") (field d "state") (field d "city")) /\
  (forall d' s loc rest,
     field d "locations" = JList (JStr s :: rest) ->
     json_loads W s = Some (JDict loc) ->
     field d' "locations" = JList (JDict loc :: rest) ->
     (forall k, k <> "locations" -> field d' k = field d k) ->
     _extract_amazon_location W (JDict d') = _extract_amazon_location W (JDict d)).
Proof.
  split; [|split].
  - intros d' first rest rest' H H' Hk. rewrite !extract_amazon_location_unfold.
    rewrite H, H'. cbv zeta. rewrite !Hk by discriminate. reflexivity.
  - intros s rest H Hl. rewrite extract_amazon_location_unfold, H. cbv zeta.
    destruct (json_loads W s) as [[| | | | |loc]|]; try reflexivity.
    now contradiction (Hl loc).
  - intros d' s loc rest H Hl H' Hk. rewrite !extract_amazon_location_unfold.
    rewrite H, H', Hl. reflexivity.
Qed.

Lemma extract_amazon_location_first_witness :
  _extract_amazon_location Demo.silent
    (JDict [("locations", JList [JStr "{not json"]); ("city", JStr "seattle");
            ("state", JStr "wa"); ("country_code", JStr "us")])
  = Ok (Some "US-WA-Seattle").
Proof.
  destruct (extract_amazon_location_first Demo.silent
              [("locations", JList [JStr "{not json"]); ("city", JStr "seattle");
               ("state", JStr "wa"); ("country_code", JStr "us")]) as (_ & H & _).
  rewrite (H "{not json" [] eq_refl); [reflexivity|].
  intros loc E. discriminate E.
Defined.

(** ** Ends of the traversals *)

(** X19: the paginated loop goes on after a page only while the offset it
    has reached is below the hit count the page reports, when the page
    reports an integer, and only with fewer than three stalled pages in a
    row. *)
Theorem amazon_page_goes_on (W : world) (data : json) (st st' : amazon_state)
  (Hpage : amazon_page W data st = Ok (Continue st')) :
  (consecutive_no_new st' < 3)%Z /\
  (forall hits h, PyVal.get data "hits" = Ok hits -> PyVal.as_int hits = Some h ->
                  (offset st' < h)%Z).
Proof.
  apply amazon_page_inv in Hpage as (jobs & Hj & [[_ H] | [Ht H]]); [discriminate|].
  destruct H as (items & d' & n & hits & _ & _ & [[_ H] | (Hlt & _ & Hh & H)]);
    [discriminate|].
  apply Z.leb_gt in Hlt.
  destruct (PyVal.as_int hits) as [h|] eqn:Eh.
  - destruct (h <=? offset st + n)%Z eqn:El; [discriminate|]. injection H as ->.
    simpl. split; [exact Hlt|]. intros hits' h' Hh' Eh'.
    rewrite Hh in Hh'. injection Hh' as <-. rewrite Eh in Eh'. injection Eh' as <-.
    now apply Z.leb_gt in El.
  - injection H as ->. simpl. split; [exact Hlt|]. intros hits' h' Hh' Eh'.
    rewrite Hh in Hh'. injection Hh' as <-. congruence.
Qed.

Lemma amazon_page_goes_on_witness :
  (consecutive_no_new
     (AmazonState [("Amazon:1", mkJob "Amazon" "Amazon:1" "Engineer"
                      "https://www.amazon.jobs/en/jobs/1" (Some "US-WA-Seattle") None)]
        1 1 0) < 3)%Z.
Proof.
  exact (proj1 (amazon_page_goes_on Demo.same_page_forever
                  (JDict [("jobs", JList [Demo.posting])]) amazon_init _
                  ltac:(vm_compute; reflexivity))).
Defined.

Lemma crawl_loop_capped_out W ms fuel st log :
  cap_allows ms st = false -> crawl_loop W ms (S fuel) st log = (Ok st, log).
Proof.
  intros H. simpl. destruct (to_visit st); [reflexivity|]. now rewrite H.
Qed.

(** X20: a cap that is zero or negative means that nothing is requested:
    [scrape_amazon] with such a page cap and [scrape_dassault] with such a
    sitemap cap return the empty list without a single request. *)
Theorem caps_at_most_zero (W : world) (m : Z) (fuel : nat) (Hm : (m <= 0)%Z) :
  (forall bq cc sort rl,
     run (scrape_amazon W bq cc sort rl (Some m) (S fuel)) = (Ok [], [])) /\
  (forall max_jobs,
     run (scrape_dassault W max_jobs (Some m) (S fuel)) = (Ok [], [])).
Proof.
  split.
  - intros bq cc sort rl. unfold run, scrape_amazon, bind. simpl.
    assert (E : (m <=? 0)%Z = true) by now apply Z.leb_le. now rewrite E.
  - intros mj. unfold run, scrape_dassault, _collect_job_urls_from_sitemaps, bind.
    rewrite crawl_loop_capped_out.
    + unfold ret. simpl job_urls.
      assert (Hs : slice_to mj (@nil string) = []).
      { unfold slice_to. destruct mj as [n|]; [|reflexivity].
        destruct (0 <=? n)%Z; apply List.firstn_nil. }
      rewrite Hs. reflexivity.
    + unfold cap_allows, crawl_init. cbn [visited]. rewrite size_empty.
      apply Z.ltb_ge. simpl. exact Hm.
Qed.

Lemma caps_at_most_zero_witness :
  run (scrape_dassault Demo.careers None (Some 0%Z) 1) = (Ok [], []).
Proof.
  exact (proj2 (caps_at_most_zero Demo.careers 0 0 ltac:(lia)) None).
Defined.

(** ** Runs that come to an end *)

Lemma amazon_loop_hits W bq cc sort rl mp H :
  hits_at_most W H ->
  forall fuel st log,
    (Z.to_nat (H - offset st) < fuel)%nat ->
    finished (fst (amazon_loop W bq cc sort rl mp fuel st log)) /\
    (List.length (snd (amazon_loop W bq cc sort rl mp fuel st log))
     <= List.length log + Nat.max 1 (Z.to_nat (H - offset st)))%nat.
Proof.
  intros Hhits. induction fuel as [|fuel IH]; intros st log Hfuel; [lia|].
  simpl. destruct (max_pages_reached mp st).
  { split; [apply finished_Ok | simpl; lia]. }
  unfold bind.
  destruct (request_log W (amazon_params bq cc sort rl (offset st)) log) as [Hl Hf].
  destruct (_request W (amazon_params bq cc sort rl (offset st)) log)
    as [[data|e|] l1] eqn:Er; simpl in Hl, Hf; subst l1;
    [| split; [apply finished_Raise | simpl; rewrite length_app; simpl; lia]
     | now contradiction Hf].
  unfold lift. pose proof (finished_amazon_page W data st) as Hfp.
  destruct (amazon_page W data st) as [[st'|st']|e|] eqn:Ep;
    [ split; [apply finished_Ok | simpl; rewrite length_app; simpl; lia]
    | | split; [apply finished_Raise | simpl; rewrite length_app; simpl; lia]
    | now contradiction Hfp ].
  destruct (Hhits _ _ _ _ Er) as (hits & h & Hg & Hi & Hle).
  pose proof (amazon_page_continue _ _ _ _ Ep) as (_ & jobs & n & _ & _ & Hn & Ho).
  assert (Hlt : (offset st' < h)%Z).
  { apply amazon_page_inv in Ep as (jobs' & _ & [[_ Hb] | [_ Hc]]); [discriminate|].
    destruct Hc as (items & d' & n' & hits' & _ & _ & [[_ Hb] | (_ & _ & Hg' & Hc)]);
      [discriminate|].
    rewrite Hg in Hg'. injection Hg' as <-. rewrite Hi in Hc.
    destruct (h <=? offset st + n')%Z eqn:El; [discriminate|].
    injection Hc as ->. simpl. now apply Z.leb_gt in El. }
  destruct (IH st' (log ++ [Request SEARCH_JSON (amazon_params bq cc sort rl (offset st))]))
    as [H1 H2]; [lia|].
  split; [exact H1|]. rewrite length_app in H2. simpl in H2. lia.
Qed.

(** X21: when every page that arrives reports an integer hit count of at
    most [H], [scrape_amazon] comes to an end, whatever else the source
    does, after at most [H] requests (one, when [H] is below one). *)
Theorem scrape_amazon_hits_bound (W : world) (bq cc sort : string) (rl : Z)
    (mp : option Z) (H : Z) (fuel : nat)
  (Hhits : hits_at_most W H) (Hfuel : (Z.to_nat H < fuel)%nat) :
  finished (fst (run (scrape_amazon W bq cc sort rl mp fuel))) /\
  (List.length (snd (run (scrape_amazon W bq cc sort rl mp fuel)))
   <= Nat.max 1 (Z.to_nat H))%nat.
Proof.
  unfold run, scrape_amazon, bind.
  destruct (amazon_loop_hits W bq cc sort rl mp H Hhits fuel amazon_init []) as [H1 H2];
    [simpl; now rewrite Z.sub_0_r|].
  simpl in H2. rewrite Z.sub_0_r in H2.
  destruct (amazon_loop W bq cc sort rl mp fuel amazon_init []) as [[st|e|] l];
    simpl in *; (split; [|exact H2]);
    [apply finished_Ok | apply finished_Raise | now contradiction H1].
Qed.

Lemma counted_pages_hits : hits_at_most counted_pages 1.
Proof.
  intros params log data log' H.
  unfold _request, bind, requests_get, lift in H. simpl in H.
  injection H as <- _. exists (JInt 1), 1%Z. repeat split. lia.
Qed.

Lemma scrape_amazon_hits_bound_witness :
  (List.length (snd (run (scrape_amazon counted_pages "" "USA" "recent" 50 None 2)))
   <= Nat.max 1 (Z.to_nat 1))%nat.
Proof.
  exact (proj2 (scrape_amazon_hits_bound counted_pages "" "USA" "recent" 50 None 1 2
                  counted_pages_hits ltac:(simpl; lia))).
Defined.

Lemma crawl_loc_queue W st loc :
  (List.length (to_visit (crawl_loc W st loc)) <= S (List.length (to_visit st)))%nat /\
  (forall x, In x (to_visit (crawl_loc W st loc)) ->
             In x (to_visit st) \/ (x = loc /\ is_sitemap_loc loc = true)).
Proof.
  unfold crawl_loc. destruct (is_sitemap_loc loc) eqn:Es.
  - destruct (bool_decide _); simpl; [split; [lia | auto]|].
    rewrite length_app. simpl. split; [lia|].
    intros x Hx. apply in_app_or in Hx as [Hx | [<- | []]]; auto.
  - destruct (_is_job_url W loc); [destruct (bool_decide _)|]; simpl; split; auto; lia.
Qed.

Lemma crawl_locs_queue W locs :
  forall st,
    (List.length (to_visit (List.fold_left (crawl_loc W) locs st))
     <= List.length (to_visit st) + List.length locs)%nat /\
    (forall x, In x (to_visit (List.fold_left (crawl_loc W) locs st)) ->
               In x (to_visit st) \/ (In x locs /\ is_sitemap_loc x = true)).
Proof.
  induction locs as [|l locs IH]; intros st; simpl.
  - split; [lia | auto].
  - destruct (IH (crawl_loc W st l)) as [H1 H2].
    destruct (crawl_loc_queue W st l) as [H3 H4].
    split; [lia|]. intros x Hx. apply H2 in Hx as [Hx | [Hx Hs]]; [|auto].
    apply H4 in Hx as [Hx | [-> Hs]]; auto.
Qed.

(** On a finite site the discovery uses up no more fuel than the length of
    its queue plus the width of a sitemap for every sitemap not yet visited. *)
Lemma crawl_loop_finished W ms sitemaps width :
  finite_site W sitemaps width ->
  forall fuel st log,
    Forall (fun u => In u sitemaps) (to_visit st) ->
    visited st ⊆ list_to_set sitemaps ->
    (List.length (to_visit st)
     + width * (size (list_to_set sitemaps : gset string) - size (visited st)) < fuel)%nat ->
    finished (fst (crawl_loop W ms fuel st log)).
Proof.
  intros [Hroot Hsite]. induction fuel as [|fuel IH]; intros st log Hq Hv Hfuel.
  { exfalso. revert Hfuel. apply Nat.nlt_0_r. }
  simpl. destruct (to_visit st) as [|u rest] eqn:Eq; [apply finished_Ok|].
  destruct (cap_allows ms st); simpl negb; cbv iota; [|apply finished_Ok].
  apply List.Forall_cons_iff in Hq as [Hu Hrest]. simpl in Hfuel.
  simpl. destruct (bool_decide (u ∈ visited st)) eqn:Ev.
  { apply IH; simpl; auto. lia. }
  apply bool_decide_eq_false in Ev.
  unfold bind, try_except. destruct (get_log W u log) as [_ Hne].
  assert (Hv1 : {[ u ]} ∪ visited st ⊆ (list_to_set sitemaps : gset string)).
  { apply union_subseteq. split; [|exact Hv].
    apply singleton_subseteq_l, elem_of_list_to_set, list_elem_of_In, Hu. }
  assert (Hs1 : size ({[ u ]} ∪ visited st) = S (size (visited st))).
  { rewrite size_union by (apply disjoint_singleton_l, Ev). now rewrite size_singleton. }
  pose proof (subseteq_size _ _ Hv1) as Hle. rewrite Hs1 in Hle.
  assert (Hmul : (width * (size (list_to_set sitemaps : gset string) - size (visited st))
                  = width + width * (size (list_to_set sitemaps : gset string)
                                     - S (size (visited st))))%nat) by nia.
  destruct (_get W u log) as [[xml_text|e|] l1] eqn:Eg;
    [| apply IH; simpl; auto; rewrite Hs1; lia | now contradiction Hne].
  unfold lift, _iter_sitemap_locs.
  destruct (xml_fromstring W xml_text) as [els|] eqn:Ex; simpl; [|apply finished_Raise].
  destruct (Hsite _ _ _ _ _ Hu Eg Ex) as [Hw Hin].
  set (st1 := CrawlState rest ({[ u ]} ∪ visited st) (job_urls st) (seen_jobs st)).
  destruct (crawl_locs_queue W (filter_locs els) st1) as [Hlen Hmem].
  apply IH.
  - apply List.Forall_forall. intros x Hx. apply Hmem in Hx as [Hx | [Hx Hs]].
    + rewrite List.Forall_forall in Hrest. now apply Hrest.
    + now apply Hin.
  - now rewrite crawl_locs_visited.
  - rewrite crawl_locs_visited. simpl visited. rewrite Hs1. simpl in Hlen. lia.
Qed.

Lemma dassault_details_finished W urls :
  forall jobs log, finished (fst (dassault_details W urls jobs log)).
Proof.
  induction urls as [|u urls IH]; intros jobs log; simpl; [apply finished_Ok|].
  unfold bind. destruct (try_get_log W u log) as [o ->].
  destruct o as [html|]; [|apply IH].
  unfold lift. pose proof (finished_parse_job_detail W html u) as Hf.
  destruct (_parse_job_detail W html u) as [[job|]|e|]; simpl;
    [apply IH | apply IH | apply finished_Raise | now contradiction Hf].
Qed.

Lemma size_list_to_set_length (l : list string) :
  (size (list_to_set l : gset string) <= List.length l)%nat.
Proof.
  induction l as [|x l IH]; [now rewrite list_to_set_nil, size_empty|].
  rewrite list_to_set_cons, size_union_alt, size_singleton.
  assert (Hd : (size ((list_to_set l : gset string) ∖ {[ x ]})
                <= size (list_to_set l : gset string))%nat).
  { apply subseteq_size. intros y Hy. apply elem_of_difference in Hy. apply Hy. }
  cbn [List.length]. apply le_n_S. eapply Nat.le_trans; [exact Hd | exact IH].
Qed.

(** X22: on a site that serves finitely many sitemaps, each listing at
    most [width] locations, [scrape_dassault] comes to an end, cycles among
    the sitemaps notwithstanding: fuel beyond one plus [width] times the
    number of sitemaps is never used up. *)
Theorem scrape_dassault_terminates (W : world) (sitemaps : list string) (width : nat)
    (max_jobs max_sitemaps : option Z) (fuel : nat)
  (Hsite : finite_site W sitemaps width)
  (Hfuel : (1 + width * List.length sitemaps < fuel)%nat) :
  finished (fst (run (scrape_dassault W max_jobs max_sitemaps fuel))).
Proof.
  unfold run, scrape_dassault, _collect_job_urls_from_sitemaps, bind.
  assert (Hc : finished (fst (crawl_loop W max_sitemaps fuel crawl_init []))).
  { apply (crawl_loop_finished W max_sitemaps sitemaps width Hsite).
    - constructor; [apply Hsite | constructor].
    - apply empty_subseteq.
    - change (visited crawl_init) with (∅ : gset string).
      change (to_visit crawl_init) with [SITEMAP_INDEX].
      rewrite size_empty, Nat.sub_0_r. cbn [List.length].
      pose proof (size_list_to_set_length sitemaps) as Hle.
      assert (width * size (list_to_set sitemaps : gset string)
              <= width * List.length sitemaps)%nat by (apply Nat.mul_le_mono_l; exact Hle).
      lia. }
  destruct (crawl_loop W max_sitemaps fuel crawl_init []) as [[st|e|] l1]; simpl in *;
    [| apply finished_Raise | now contradiction Hc].
  unfold ret.
  pose proof (dassault_details_finished W (slice_to max_jobs (job_urls st)) [] l1) as Hd.
  destruct (dassault_details W (slice_to max_jobs (job_urls st)) [] l1) as [[d|e|] l2];
    simpl in *; [apply finished_Ok | apply finished_Raise | now contradiction Hd].
Qed.

Lemma careers_get u log xml_text log' :
  _get Demo.careers u log = (Ok xml_text, log') -> xml_text = u.
Proof.
  unfold _get, bind, requests_get, lift, raise_for_status, ret. simpl.
  now intros [= <- _].
Qed.

Lemma careers_finite_site :
  finite_site Demo.careers [SITEMAP_INDEX; Demo.sm "jobs"] 3.
Proof.
  split; [now left|]. intros u log xml_text log' els Hu Hg H.
  apply careers_get in Hg. subst xml_text.
  destruct Hu as [<- | [<- | []]]; vm_compute in H; injection H as <-.
  - split; [vm_compute; lia|]. intros loc [<- | []] _. right. now left.
  - split; [vm_compute; lia|].
    intros loc [<- | [<- | [<- | []]]] Hs;
      solve [vm_compute in Hs; discriminate Hs | now left].
Qed.

Lemma scrape_dassault_terminates_witness :
  finished (fst (run (scrape_dassault Demo.careers None None 8))).
Proof.
  exact (scrape_dassault_terminates Demo.careers [SITEMAP_INDEX; Demo.sm "jobs"] 3
           None None 8 careers_finite_site ltac:(simpl; lia)).
Defined.
